(** * rio stack: band selection and destination layout

    A shallow embedding of [rasterio/rio/bands.py] (the [stack] command):
    the Python string and slice primitives the command relies on, the
    per-input resolution of a [--bidx] expression, the accumulation of the
    output band count, the assembly of the output metadata and the copy
    loop, followed by the properties of the band-selection and layout
    engine. *)

From Stdlib Require Import ZArith Lia String Ascii List Bool.
From stdpp Require Import base option list list_numbers gmap strings pretty.

Local Open Scope Z_scope.

(** ** Python exceptions and results *)

(** The subclasses of [Exception] the command can meet. *)
Inductive exn : Type :=
  | ValueError
  | TypeError
  | IndexError
  | KeyError
  | IOError.

Inductive result (A : Type) : Type :=
  | Ok (a : A)
  | Raise (e : exn).
Arguments Ok {A} a.
Arguments Raise {A} e.

#[global] Instance result_ret : MRet result := fun _ a => Ok a.
#[global] Instance result_bind : MBind result := fun _ _ k m =>
  match m with
  | Ok a => k a
  | Raise e => Raise e
  end.

(** [list(map(f, xs))] for a fallible [f]: the first failure, left to right,
    is the one raised. *)
Fixpoint rmap {A B : Type} (f : A → result B) (xs : list A) : result (list B) :=
  match xs with
  | [] => Ok []
  | x :: xs' =>
      y ← f x;
      ys ← rmap f xs';
      Ok (y :: ys)
  end.

Definition is_ok {A : Type} (r : result A) : bool :=
  match r with Ok _ => true | Raise _ => false end.

(** ** Python string primitives *)

Module Py.

(** [s.startswith(p)] *)
Fixpoint startswith (p s : string) : bool :=
  match p with
  | EmptyString => true
  | String a p' =>
      match s with
      | EmptyString => false
      | String b s' => if Ascii.eqb a b then startswith p' s' else false
      end
  end.

(** [sub in s] *)
Fixpoint contains (sub s : string) : bool :=
  if startswith sub s then true
  else match s with
       | EmptyString => false
       | String _ s' => contains sub s'
       end.

(** [s.split(sep)] for a non-empty [sep]: the leftmost occurrences, not
    overlapping.  [skip] counts the characters of a separator still to be
    passed over and [cur] is the piece being read. *)
Fixpoint split_go (sep : string) (skip : nat) (cur : string) (s : string)
  : list string :=
  match s with
  | EmptyString => [cur]
  | String c s' =>
      match skip with
      | S k => split_go sep k cur s'
      | O =>
          if startswith sep s
          then cur :: split_go sep (Nat.pred (String.length sep)) EmptyString s'
          else split_go sep O (cur +:+ String c EmptyString) s'
      end
  end.

Definition split (sep s : string) : list string := split_go sep O EmptyString s.

(** ASCII white space, as [str.strip] and [int] skip it. *)
Definition isspace (c : ascii) : bool :=
  let n := nat_of_ascii c in
  ((9 <=? n) && (n <=? 13))%nat || (n =? 32)%nat.

Definition digit_val (c : ascii) : option Z :=
  let n := nat_of_ascii c in
  if ((48 <=? n) && (n <=? 57))%nat then Some (Z.of_nat n - 48) else None.

Fixpoint lstrip (s : string) : string :=
  match s with
  | String c s' => if isspace c then lstrip s' else s
  | EmptyString => EmptyString
  end.

(** The digits of a literal, most significant first; trailing white space
    may follow the last digit and nothing else may. *)
Fixpoint digits (acc : Z) (seen : bool) (s : string) : option Z :=
  match s with
  | EmptyString => if seen then Some acc else None
  | String c s' =>
      match digit_val c with
      | Some d => digits (10 * acc + d) true s'
      | None =>
          if seen && isspace c
          then match lstrip s' with EmptyString => Some acc | _ => None end
          else None
      end
  end.

(** [int(s)] on a [str]: optional surrounding white space, an optional
    sign, then decimal digits; anything else is a [ValueError].  Digits
    outside ASCII and the underscore grouping of later Python versions are
    left out. *)
Definition int (s : string) : result Z :=
  let body :=
    match lstrip s with
    | String "-" s' => option_map Z.opp (digits 0 false s')
    | String "+" s' => digits 0 false s'
    | s' => digits 0 false s'
    end in
  match body with
  | Some z => Ok z
  | None => Raise ValueError
  end.

(** [l[slice(start, stop)]] with unit step: a negative bound counts from
    the end, and both bounds are clamped to [0, len(l)]. *)
Definition clamp (len i : Z) : Z :=
  if (i <? 0)%Z then Z.max (i + len) 0 else Z.min i len.

Definition slice {A : Type} (start : Z) (stop : option Z) (l : list A) : list A :=
  let len := Z.of_nat (length l) in
  let lo := clamp len start in
  let hi := match stop with Some j => clamp len j | None => len end in
  take (Z.to_nat (hi - lo)) (drop (Z.to_nat lo) l).

(** [zip_longest(xs, ys, fillvalue=None)] *)
Fixpoint zip_longest {A B : Type} (xs : list A) (ys : list B)
  : list (option A * option B) :=
  match xs, ys with
  | [], [] => []
  | x :: xs', [] => (Some x, None) :: zip_longest xs' []
  | [], y :: ys' => (None, Some y) :: (fix rest (l : list B) :=
                       match l with
                       | [] => []
                       | b :: l' => (None, Some b) :: rest l'
                       end) ys'
  | x :: xs', y :: ys' => (Some x, Some y) :: zip_longest xs' ys'
  end.

(** [s.lower()] on ASCII text *)
Definition lower_char (c : ascii) : ascii :=
  let n := nat_of_ascii c in
  if ((65 <=? n) && (n <=? 90))%nat then ascii_of_nat (n + 32) else c.

Fixpoint lower (s : string) : string :=
  match s with
  | EmptyString => EmptyString
  | String c s' => String (lower_char c) (lower s')
  end.

End Py.

(** ** The raster I/O collaborator *)

(** Values held in a dataset's metadata dictionary. *)
Inductive pyval : Type :=
  | VInt (z : Z)
  | VStr (s : string)
  | VNone
  | VTuple (zs : list Z).

(** One band: a two-dimensional grid of pixel values. *)
Definition raster : Type := list (list Z).

Record dataset : Type := {
  ds_meta : gmap string pyval;
  ds_bands : list raster
}.

(** A dataset opened in ['w'] mode: the keyword arguments it was created
    with, its fixed band count, and the bands written so far. *)
Record writer : Type := {
  w_meta : gmap string pyval;
  w_count : Z;
  w_bands : gmap Z raster
}.

Module Rio.

(** Modelled from the spec: [rasterio.open(path)] is not part of the source
    file.  It opens a readable dataset by path; a path that is not a string
    ([None], as [zip_longest] supplies it) is a [TypeError], an unreadable
    input an I/O failure. *)
Definition open_r (fs : gmap string dataset) (path : option string)
  : result dataset :=
  match path with
  | None => Raise TypeError
  | Some p =>
      match fs !! p with
      | Some d => Ok d
      | None => Raise IOError
      end
  end.

Definition count (d : dataset) : Z := Z.of_nat (length (ds_bands d)).

(** Modelled from the spec: [src.indexes] is not part of the source file.
    It is the ordered list of the 1-based band indexes, [[1..N]]. *)
Definition indexes (d : dataset) : list Z := seqZ 1 (count d).

(** Modelled from the spec: [src.read(index)] with an [int] is not part of
    the source file.  It returns one band; an index outside [1..N] is
    surfaced by the collaborator as an error. *)
Definition read_band (d : dataset) (i : Z) : result raster :=
  if ((1 <=? i) && (i <=? count d))%Z
  then match ds_bands d !! Z.to_nat (i - 1) with
       | Some r => Ok r
       | None => Raise IndexError
       end
  else Raise IndexError.

(** Modelled from the spec: [src.read(indexes)] with a list is not part of
    the source file.  It returns the listed bands as one batch, in the
    order given.  What the collaborator does with an empty list is not in
    the source; here it is read as an empty batch. *)
Definition read_bands (d : dataset) (l : list Z) : result (list raster) :=
  rmap (read_band d) l.

(** Modelled from the spec: [rasterio.open(output, 'w', **kwargs)] is not
    part of the source file.  The band count of the new dataset is fixed by
    the [count] keyword.  The failures of the output path and of the driver
    are not modelled. *)
Definition open_w (kwargs : gmap string pyval) : result writer :=
  match kwargs !! "count" with
  | Some (VInt n) => Ok {| w_meta := kwargs; w_count := n; w_bands := ∅ |}
  | _ => Raise TypeError
  end.

(** Modelled from the spec: [dst.write(data, idx)] with an [int] is not
    part of the source file. *)
Definition write_band (w : writer) (data : raster) (idx : Z) : result writer :=
  if ((1 <=? idx) && (idx <=? w_count w))%Z
  then Ok {| w_meta := w_meta w; w_count := w_count w;
             w_bands := <[idx := data]> (w_bands w) |}
  else Raise IndexError.

(** Modelled from the spec: [dst.write(data, indexes)] with a batch is not
    part of the source file.  The batch and the destination indexes must
    agree in number, and the batch is written as a whole or not at all. *)
Fixpoint write_bands (w : writer) (data : list raster) (idxs : list Z)
  : result writer :=
  match data, idxs with
  | [], [] => Ok w
  | r :: data', i :: idxs' =>
      w' ← write_band w r i;
      write_bands w' data' idxs'
  | _, _ => Raise ValueError
  end.

End Rio.

(** ** The stack command *)

(** An entry of [indexes]: an [int] or a [list] of them. *)
Inductive selection : Type :=
  | Single (i : Z)
  | Many (l : list Z).

(** Line 87: [lambda x: int(x) if x else None]. *)
Definition bound (x : string) : result (option Z) :=
  match x with
  | EmptyString => Ok None
  | _ => z ← Py.int x; Ok (Some z)
  end.

(** Lines 82-100: what one [--bidx] item appends to [indexes], and what it
    adds to [output_count]. *)
Definition resolve_item (src_indexes : list Z) (item : option string)
  : result (selection * Z) :=
  match item with
  | None => Ok (Many src_indexes, Z.of_nat (length src_indexes))
  | Some item =>
      if Py.contains ".." item then
        parts ← rmap bound (Py.split ".." item);
        match parts with
        | [start; stop] =>
            let start := default 1 start in
            Ok (Many (Py.slice (start - 1) stop src_indexes),
                Z.of_nat (length (Py.slice (start - 1) stop src_indexes)))
        | _ => Raise ValueError
        end
      else
        parts ← rmap Py.int (Py.split "," item);
        match parts with
        | [p] => Ok (Single p, 1)
        | _ => Ok (Many parts, Z.of_nat (length parts))
        end
  end.

(** Lines 79-100: the loop over [zip_longest(input, bidx)]. *)
Fixpoint resolve_all (fs : gmap string dataset)
    (pairs : list (option string * option string))
    (indexes : list selection) (output_count : Z)
  : result (list selection * Z) :=
  match pairs with
  | [] => Ok (indexes, output_count)
  | (path, item) :: rest =>
      src ← Rio.open_r fs path;
      r ← resolve_item (Rio.indexes src) item;
      resolve_all fs rest (indexes ++ [r.1]) (output_count + r.2)
  end.

(** [if photometric:] *)
Definition truthy (o : option string) : bool :=
  match o with
  | Some (String _ _) => true
  | _ => false
  end.

(** Lines 103-111: the keyword arguments the output is created with. *)
Definition output_kwargs (meta : gmap string pyval) (driver : string)
    (output_count : Z) (photometric : option string)
  : result (gmap string pyval) :=
  match meta !! "affine" with
  | None => Raise KeyError
  | Some a =>
      let kwargs := <["transform" := a]> (delete "affine" meta) in
      let kwargs := <["count" := VInt output_count]>
                      (<["driver" := VStr driver]> kwargs) in
      Ok (if truthy photometric
          then <["photometric" := VStr (default "" photometric)]> kwargs
          else kwargs)
  end.

(** The calls made on the collaborator during the copy phase. *)
Inductive event : Type :=
  | EvReadBand (path : string) (i : Z)
  | EvWriteBand (dst_idx : Z)
  | EvReadBands (path : string) (l : list Z)
  | EvWriteBands (dst_idxs : list Z).

Record copy_state : Type := {
  cs_dst : writer;
  cs_idx : Z;
  cs_trace : list event
}.

Definition emit (e : event) (st : copy_state) : copy_state :=
  {| cs_dst := cs_dst st; cs_idx := cs_idx st; cs_trace := cs_trace st ++ [e] |}.

(** Lines 116-124: one turn of the copy loop.  The state is returned also
    when an exception is raised, as what was written stays written. *)
Definition copy_entry (fs : gmap string dataset) (path : string)
    (index : selection) (st : copy_state) : copy_state * result unit :=
  match Rio.open_r fs (Some path) with
  | Raise e => (st, Raise e)
  | Ok src =>
      match index with
      | Single i =>
          match Rio.read_band src i with
          | Raise e => (st, Raise e)
          | Ok data =>
              let st := emit (EvReadBand path i) st in
              match Rio.write_band (cs_dst st) data (cs_idx st) with
              | Raise e => (st, Raise e)
              | Ok dst =>
                  ({| cs_dst := dst; cs_idx := cs_idx st + 1;
                      cs_trace := cs_trace st ++ [EvWriteBand (cs_idx st)] |},
                   Ok ())
              end
          end
      | Many l =>
          match Rio.read_bands src l with
          | Raise e => (st, Raise e)
          | Ok data =>
              let st := emit (EvReadBands path l) st in
              let len := Z.of_nat (length l) in
              let range := seqZ (cs_idx st) len in
              match Rio.write_bands (cs_dst st) data range with
              | Raise e => (st, Raise e)
              | Ok dst =>
                  ({| cs_dst := dst; cs_idx := cs_idx st + len;
                      cs_trace := cs_trace st ++ [EvWriteBands range] |},
                   Ok ())
              end
          end
      end
  end.

(** Lines 115-124: the loop over [zip(input, indexes)]. *)
Fixpoint copy_loop (fs : gmap string dataset)
    (plan : list (string * selection)) (st : copy_state)
  : copy_state * result unit :=
  match plan with
  | [] => (st, Ok ())
  | (path, index) :: rest =>
      match copy_entry fs path index st with
      | (st', Ok _) => copy_loop fs rest st'
      | (st', Raise e) => (st', Raise e)
      end
  end.

Record args : Type := {
  input : list string;
  bidx : list string;
  photometric : option string;
  output : string;
  driver : string
}.

(** Lines 77-111: everything that precedes the opening of the output. *)
Definition plan (fs : gmap string dataset) (a : args)
  : result (list selection * Z * gmap string pyval) :=
  r ← resolve_all fs (Py.zip_longest (input a) (bidx a)) [] 0;
  first ← match input a with
          | [] => Raise IndexError
          | p :: _ => Rio.open_r fs (Some p)
          end;
  kwargs ← output_kwargs (ds_meta first) (driver a) r.2 (photometric a);
  Ok (r.1, r.2, kwargs).

Record outcome : Type := {
  exit_code : Z;
  logged : list (string * exn);
  final : option copy_state
}.

Definition failed (e : exn) (st : option copy_state) : outcome :=
  {| exit_code := 1;
     logged := [("Failed. Exception caught", e)];
     final := st |}.

(** Lines 76-125: the body of the [try] block.  It yields the state of the
    copy phase, if the output was opened, and whether an exception was
    raised. *)
Definition stack_body (fs : gmap string dataset) (a : args)
  : option copy_state * result unit :=
  match plan fs a with
  | Raise e => (None, Raise e)
  | Ok (indexes, _, kwargs) =>
      match Rio.open_w kwargs with
      | Raise e => (None, Raise e)
      | Ok dst =>
          match copy_loop fs (zip (input a) indexes)
                  {| cs_dst := dst; cs_idx := 1; cs_trace := [] |} with
          | (st, r) => (Some st, r)
          end
      end
  end.

(** Lines 75-129: [sys.exit(0)] after the body, and the handler that logs
    and exits with 1. *)
Definition stack (fs : gmap string dataset) (a : args) : outcome :=
  match stack_body fs a with
  | (st, Ok _) => {| exit_code := 0; logged := []; final := st |}
  | (st, Raise e) => failed e st
  end.

(** ** Observations used in the statements *)

(** Every character of [s] satisfies [p]. *)
Fixpoint all_chars (p : ascii → bool) (s : string) : bool :=
  match s with
  | EmptyString => true
  | String c s' => p c && all_chars p s'
  end.

(** The character [c0] does not occur in [s]. *)
Definition avoids (c0 : ascii) (s : string) : bool :=
  all_chars (fun c => negb (Ascii.eqb c0 c)) s.

(** The characters [int] can accept. *)
Definition int_char (c : ascii) : bool :=
  Py.isspace c || Ascii.eqb c "-" || Ascii.eqb c "+"
  || match Py.digit_val c with Some _ => true | None => false end.

(** The upper end of a slice once clamped; an absent stop is the length. *)
Definition slice_hi (len : Z) (stop : option Z) : Z :=
  match stop with Some j => Py.clamp len j | None => len end.

(** What an entry of [indexes] adds to the output band count. *)
Definition contributed (sel : selection) : Z :=
  match sel with
  | Single _ => 1
  | Many l => Z.of_nat (length l)
  end.

(** What a list of entries adds up to. *)
Definition total (ixs : list selection) : Z :=
  foldr (fun sel n => contributed sel + n) 0 ixs.

(** The destination indexes written, in the order of the writes. *)
Fixpoint written (tr : list event) : list Z :=
  match tr with
  | [] => []
  | EvWriteBand i :: tr' => i :: written tr'
  | EvWriteBands l :: tr' => l ++ written tr'
  | _ :: tr' => written tr'
  end.

(** The sources read and what was read from each, in the order of the
    reads. *)
Fixpoint sources (tr : list event) : list (string * selection) :=
  match tr with
  | [] => []
  | EvReadBand p i :: tr' => (p, Single i) :: sources tr'
  | EvReadBands p l :: tr' => (p, Many l) :: sources tr'
  | _ :: tr' => sources tr'
  end.

(** The calls one entry makes, with the destination cursor at [c]. *)
Definition entry_calls (path : string) (sel : selection) (c : Z) : list event :=
  match sel with
  | Single i => [EvReadBand path i; EvWriteBand c]
  | Many l => [EvReadBands path l; EvWriteBands (seqZ c (Z.of_nat (length l)))]
  end.

(** The indexes of a selection are bands of the source. *)
Definition in_range (d : dataset) (sel : selection) : Prop :=
  match sel with
  | Single i => 1 ≤ i ≤ Rio.count d
  | Many l => Forall (fun i => 1 ≤ i ≤ Rio.count d) l
  end.

(** The keys of the keyword arguments that the command sets or moves. *)
Definition touched_keys : list string :=
  ["count"; "driver"; "photometric"; "transform"; "affine"].

(** ** A test world: the three-band testing dataset *)

Definition band_of (v : Z) : raster := [[v; v]; [v; v]].

Definition rgb_meta : gmap string pyval :=
  <["affine" := VTuple [300; 0; 101985; 0; -300; 2826915]]>
  (<["transform" := VTuple [101985; 300; 0; 2826915; 0; -300]]>
  (<["count" := VInt 3]>
  (<["driver" := VStr "GTiff"]>
  (<["dtype" := VStr "uint8"]>
  (<["width" := VInt 2]>
  (<["height" := VInt 2]> ∅)))))).

Definition rgb : dataset :=
  {| ds_meta := rgb_meta; ds_bands := [band_of 10; band_of 20; band_of 30] |}.

Definition test_fs : gmap string dataset := <["RGB.byte.tif" := rgb]> ∅.

Definition test_args (bidx : list string) : args :=
  {| input := ["RGB.byte.tif"]; bidx := bidx; photometric := None;
     output := "stacked.tif"; driver := "GTiff" |}.


(** [rio stack RGB.byte.tif --bidx ..2 RGB.byte.tif --bidx 3.. -o stacked.tif] *)
Definition two_inputs : args :=
  {| input := ["RGB.byte.tif"; "RGB.byte.tif"]; bidx := ["..2"; "3.."];
     photometric := None; output := "stacked.tif"; driver := "GTiff" |}.

(** ** The rest of the module *)

(** Lines 13-21: the values [click.Choice] accepts for [--photometric]. *)
Definition PHOTOMETRIC_CHOICES : list string :=
  Py.lower <$> ["MINISBLACK"; "MINISWHITE"; "RGB"; "CMYK"; "YCBCR";
                "CIELAB"; "ICCLAB"; "ITULAB"].

(** Line 73: [(ctx.obj and ctx.obj.get('verbosity')) or 2].  The context
    object is [None] or a dictionary; the verbosity it may hold is an
    integer, the count of [-v] flags less that of [-q] flags. *)
Definition verbosity (obj : option (gmap string Z)) : Z :=
  match obj with
  | None => 2
  | Some m =>
      if decide (m = ∅) then 2
      else match m !! "verbosity" with
           | Some v => if (v =? 0)%Z then 2 else v
           | None => 2
           end
  end.

(** Line 76: [CPL_DEBUG=verbosity>2]. *)
Definition cpl_debug (obj : option (gmap string Z)) : bool :=
  (2 <? verbosity obj)%Z.








(** What the copy loop reads from a source for one entry of [indexes]:
    lines 118 and 122. *)
Definition read_sel (d : dataset) (sel : selection) : result (list raster) :=
  match sel with
  | Single i => r ← Rio.read_band d i; Ok [r]
  | Many l => Rio.read_bands d l
  end.

(** The bands of an output are exactly [bands], at the indexes 1, 2, ... *)
Definition holds (w : writer) (bands : list raster) : Prop :=
  ∀ k : Z, w_bands w !! k
           = if bool_decide (1 ≤ k) then bands !! Z.to_nat (k - 1) else None.

(** A source is there and the selection stays within its bands. *)
Definition readable (fs : gmap string dataset) (entry : string * selection)
  : Prop :=
  ∃ d, fs !! entry.1 = Some d ∧ in_range d entry.2.

(** ** The primitives on concrete inputs *)

Example split_range : Py.split ".." "1..3" = ["1"; "3"].
Proof. reflexivity. Qed.
Example split_open_l : Py.split ".." "..2" = [""; "2"].
Proof. reflexivity. Qed.
Example split_open_r : Py.split ".." "3.." = ["3"; ""].
Proof. reflexivity. Qed.
Example split_three_dots : Py.split ".." "1...3" = ["1"; ".3"].
Proof. reflexivity. Qed.
Example split_commas : Py.split "," "2,1,2" = ["2"; "1"; "2"].
Proof. reflexivity. Qed.
Example split_empty : Py.split "," "" = [""].
Proof. reflexivity. Qed.
Example int_plain : Py.int "42" = Ok 42.
Proof. reflexivity. Qed.
Example int_signed : Py.int " -7 " = Ok (-7).
Proof. reflexivity. Qed.
Example int_bad : Py.int "1.5" = Raise ValueError.
Proof. reflexivity. Qed.
Example int_empty : Py.int "" = Raise ValueError.
Proof. reflexivity. Qed.
Example slice_mid : Py.slice 1 (Some 3) [1; 2; 3; 4] = [2; 3].
Proof. reflexivity. Qed.
Example slice_neg : Py.slice (-1) (Some 2) [1; 2; 3] = [].
Proof. reflexivity. Qed.
Example slice_over : Py.slice 0 (Some 10) [1; 2; 3] = [1; 2; 3].
Proof. reflexivity. Qed.

(** ** Facts about the string primitives *)

Section Strings.

Implicit Types (s p a cur rest : string) (c : ascii).

Lemma str_app_cons c s1 s2 : String c s1 +:+ s2 = String c (s1 +:+ s2).
Proof. reflexivity. Qed.

Lemma str_app_nil_l s : "" +:+ s = s.
Proof. reflexivity. Qed.

Lemma str_app_nil_r s : s +:+ "" = s.
Proof.
  induction s as [|c s IH]; [done|].
  by rewrite str_app_cons, IH.
Qed.

Lemma str_app_assoc s1 s2 s3 : (s1 +:+ s2) +:+ s3 = s1 +:+ (s2 +:+ s3).
Proof.
  induction s1 as [|c s1 IH]; [done|].
  by rewrite !str_app_cons, IH.
Qed.

Lemma all_chars_app f s1 s2 :
  all_chars f (s1 +:+ s2) = all_chars f s1 && all_chars f s2.
Proof.
  induction s1 as [|c s1 IH]; [done|].
  rewrite str_app_cons. simpl. by rewrite IH, andb_assoc.
Qed.

Lemma all_chars_impl (f g : ascii → bool) s :
  (∀ c, f c = true → g c = true) → all_chars f s = true → all_chars g s = true.
Proof.
  intros Hfg. induction s as [|c s IH]; simpl; [done|].
  rewrite !andb_true_iff. intros [? ?]. auto.
Qed.

Lemma startswith_app p rest : Py.startswith p (p +:+ rest) = true.
Proof.
  induction p as [|c p IH]; [done|].
  rewrite str_app_cons. simpl. by rewrite Ascii.eqb_refl.
Qed.

Lemma contains_unfold sub c s :
  Py.contains sub (String c s)
  = if Py.startswith sub (String c s) then true else Py.contains sub s.
Proof. reflexivity. Qed.

Lemma contains_app_r sub a rest :
  Py.contains sub rest = true → Py.contains sub (a +:+ rest) = true.
Proof.
  intros H. induction a as [|c a IH]; [done|].
  rewrite str_app_cons, contains_unfold, IH. by destruct (Py.startswith _ _).
Qed.

Lemma contains_sep sub a rest : Py.contains sub (a +:+ sub +:+ rest) = true.
Proof.
  apply contains_app_r.
  destruct sub as [|c sub]; [by destruct rest|].
  rewrite str_app_cons, contains_unfold, <- str_app_cons.
  by rewrite startswith_app.
Qed.

Lemma contains_avoids c0 sub' s :
  avoids c0 s = true → Py.contains (String c0 sub') s = false.
Proof.
  induction s as [|c s IH]; [done|].
  unfold avoids; simpl. rewrite andb_true_iff, negb_true_iff.
  intros [Hc Hs]. rewrite Hc. by apply IH.
Qed.

Lemma split_go_unfold sep cur c s :
  Py.split_go sep 0 cur (String c s)
  = if Py.startswith sep (String c s)
    then cur :: Py.split_go sep (Nat.pred (String.length sep)) "" s
    else Py.split_go sep 0 (cur +:+ String c "") s.
Proof. reflexivity. Qed.

Lemma split_go_skip sep p cur rest :
  Py.split_go sep (String.length p) cur (p +:+ rest) = Py.split_go sep 0 cur rest.
Proof.
  induction p as [|c p IH]; [by destruct rest|].
  rewrite str_app_cons. simpl. exact IH.
Qed.

(** A string without the separator's first character is one piece. *)
Lemma split_go_plain c0 sep' s cur :
  avoids c0 s = true → Py.split_go (String c0 sep') 0 cur s = [cur +:+ s].
Proof.
  revert cur. induction s as [|c s IH]; intros cur.
  - intros _. by rewrite str_app_nil_r.
  - unfold avoids; simpl. rewrite andb_true_iff, negb_true_iff.
    intros [Hc Hs]. rewrite Hc, IH by done.
    by rewrite str_app_assoc.
Qed.

(** The first separator ends the first piece. *)
Lemma split_go_sep c0 sep' a cur rest :
  avoids c0 a = true →
  Py.split_go (String c0 sep') 0 cur (a +:+ String c0 sep' +:+ rest)
  = (cur +:+ a) :: Py.split_go (String c0 sep') 0 "" rest.
Proof.
  revert cur. induction a as [|c a IH]; intros cur.
  - intros _. rewrite str_app_nil_r, str_app_nil_l.
    rewrite str_app_cons, split_go_unfold, <- str_app_cons.
    rewrite startswith_app. simpl Nat.pred.
    by rewrite split_go_skip.
  - intros Ha. unfold avoids in Ha; simpl in Ha.
    apply andb_true_iff in Ha as [Hc%negb_true_iff Hs].
    rewrite str_app_cons, split_go_unfold.
    simpl Py.startswith. rewrite Hc, IH by done.
    by rewrite str_app_assoc.
Qed.

Lemma split_plain c0 sep' s :
  avoids c0 s = true → Py.split (String c0 sep') s = [s].
Proof. intros. unfold Py.split. by rewrite split_go_plain. Qed.

Lemma split_sep c0 sep' a rest :
  avoids c0 a = true →
  Py.split (String c0 sep') (a +:+ String c0 sep' +:+ rest)
  = a :: Py.split (String c0 sep') rest.
Proof. intros. unfold Py.split. by rewrite split_go_sep. Qed.

(** [sep.join] and [split(sep)] are inverse on pieces free of [sep]. *)
Lemma split_concat c0 sep' (ts : list string) :
  ts ≠ [] →
  Forall (fun t => avoids c0 t = true) ts →
  Py.split (String c0 sep') (String.concat (String c0 sep') ts) = ts.
Proof.
  intros Hne Hall. induction Hall as [|t ts Ht Hts IH]; [done|].
  destruct ts as [|t' ts].
  - simpl. by apply split_plain.
  - change (String.concat (String c0 sep') (t :: t' :: ts))
      with (t +:+ String c0 sep' +:+ String.concat (String c0 sep') (t' :: ts)).
    rewrite split_sep by done. f_equal. by apply IH.
Qed.

Lemma lstrip_spaces s :
  Py.lstrip s = "" → all_chars Py.isspace s = true.
Proof.
  induction s as [|c s IH]; simpl; [done|].
  destruct (Py.isspace c); [exact IH | done].
Qed.

Lemma lstrip_chars f s :
  (∀ c, Py.isspace c = true → f c = true) →
  all_chars f (Py.lstrip s) = true → all_chars f s = true.
Proof.
  intros Hf. induction s as [|c s IH]; simpl; [done|].
  destruct (Py.isspace c) eqn:Hc; simpl.
  - intros. by rewrite Hf, IH.
  - done.
Qed.

Lemma digits_chars acc seen s z :
  Py.digits acc seen s = Some z → all_chars int_char s = true.
Proof.
  revert acc seen. induction s as [|c s IH]; intros acc seen; simpl; [done|].
  unfold int_char at 1.
  destruct (Py.digit_val c) eqn:Hd.
  - intros H. rewrite (IH _ _ H). by rewrite orb_true_r.
  - destruct (seen && Py.isspace c) eqn:Hs; [|done].
    apply andb_true_iff in Hs as [_ ->]. simpl.
    destruct (Py.lstrip s) eqn:Hl; [|done].
    intros _. eapply all_chars_impl, lstrip_spaces, Hl.
    intros c' Hc'. unfold int_char. by rewrite Hc'.
Qed.

(** [int] accepts only white space, signs and digits. *)
Lemma int_chars s z : Py.int s = Ok z → all_chars int_char s = true.
Proof.
  unfold Py.int. intros H.
  apply (lstrip_chars int_char).
  { intros c Hc. unfold int_char. by rewrite Hc. }
  destruct (Py.lstrip s) as [|c s'] eqn:Hl; [done|].
  assert (Hbody : (∃ z', Py.digits 0 false s' = Some z'
                         ∧ (c = "-"%char ∨ c = "+"%char))
                  ∨ ∃ z', Py.digits 0 false (String c s') = Some z').
  { destruct (Ascii.eqb_spec c "-") as [->|Hm].
    - left. destruct (Py.digits 0 false s') as [z'|]; [eauto | done].
    - destruct (Ascii.eqb_spec c "+") as [->|Hp].
      + left. destruct (Py.digits 0 false s') as [z'|]; [eauto | done].
      + right.
        destruct c as [[] [] [] [] [] [] [] []];
          try (exfalso; by (apply Hm || apply Hp));
          (destruct (Py.digits 0 false (String _ s')) as [z'|];
             [eauto | done]). }
  destruct Hbody as [(z' & Hz' & Hc)|(z' & Hz')].
  - simpl. rewrite (digits_chars _ _ _ _ Hz').
    by destruct Hc as [-> | ->].
  - by apply digits_chars in Hz'.
Qed.

Lemma int_char_avoids c0 s :
  int_char c0 = false → all_chars int_char s = true → avoids c0 s = true.
Proof.
  intros Hc0. apply all_chars_impl. intros c Hc.
  apply negb_true_iff. destruct (Ascii.eqb_spec c0 c) as [->|]; [|done].
  congruence.
Qed.

Lemma int_avoids_dot s z : Py.int s = Ok z → avoids "." s = true.
Proof. intros H. by apply int_char_avoids, (int_chars s z). Qed.

Lemma int_avoids_comma s z : Py.int s = Ok z → avoids "," s = true.
Proof. intros H. by apply int_char_avoids, (int_chars s z). Qed.

Lemma int_nonempty s z : Py.int s = Ok z → ∃ c s', s = String c s'.
Proof. destruct s; [done | eauto]. Qed.

End Strings.

(** ** Facts about slices of the band list *)

Section Slices.

Lemma drop_seqZ (m n k : Z) :
  0 ≤ k ≤ n → drop (Z.to_nat k) (seqZ m n) = seqZ (m + k) (n - k).
Proof.
  intros Hk. replace n with (k + (n - k)) at 1 by lia.
  rewrite seqZ_app by lia.
  apply drop_app_length'. rewrite length_seqZ. lia.
Qed.

Lemma take_seqZ (m n k : Z) :
  k ≤ n → take (Z.to_nat k) (seqZ m n) = seqZ m k.
Proof.
  intros Hk. destruct (Z.le_gt_cases k 0) as [H0|H0].
  - replace (Z.to_nat k) with 0%nat by lia. by rewrite (seqZ_nil m k).
  - replace n with (k + (n - k)) at 1 by lia.
    rewrite seqZ_app by lia.
    apply take_app_length'. rewrite length_seqZ. lia.
Qed.

Lemma clamp_range (len i : Z) : 0 ≤ len → 0 ≤ Py.clamp len i ≤ len.
Proof. unfold Py.clamp. destruct (Z.ltb_spec i 0); lia. Qed.

Lemma clamp_in_range (len i : Z) : 0 ≤ i ≤ len → Py.clamp len i = i.
Proof. unfold Py.clamp. destruct (Z.ltb_spec i 0); lia. Qed.

(** A slice of [[1..n]] is the run of integers between the clamped
    bounds. *)
Lemma slice_seqZ (n start : Z) (stop : option Z) :
  0 ≤ n →
  Py.slice start stop (seqZ 1 n)
  = seqZ (1 + Py.clamp n start) (slice_hi n stop - Py.clamp n start).
Proof.
  intros Hn. unfold Py.slice.
  rewrite length_seqZ, Z2Nat.id by done.
  fold (slice_hi n stop).
  pose proof (clamp_range n start Hn) as Hlo.
  assert (Hhi : 0 ≤ slice_hi n stop ≤ n).
  { destruct stop; simpl; [by apply clamp_range | lia]. }
  rewrite drop_seqZ by done.
  apply take_seqZ. lia.
Qed.

Lemma slice_none_len {A : Type} (start : Z) (l : list A) :
  Py.slice start None l = Py.slice start (Some (Z.of_nat (length l))) l.
Proof.
  unfold Py.slice. cbv zeta.
  by rewrite (clamp_in_range _ (Z.of_nat (length l))) by lia.
Qed.

End Slices.

(** ** Facts about the resolution of one item *)

Section Resolve.

Implicit Types (a b item : string) (src : list Z).

Lemma bound_int a z : Py.int a = Ok z → bound a = Ok (Some z).
Proof.
  intros H. destruct (int_nonempty a z H) as (c & s' & ->).
  unfold bound. by rewrite H.
Qed.

Lemma bound_avoids_dot a o : bound a = Ok o → avoids "." a = true.
Proof.
  destruct a as [|c s]; [done|]. unfold bound.
  destruct (Py.int (String c s)) as [z|] eqn:Hz; [|done].
  intros _. by apply (int_avoids_dot _ z).
Qed.

(** A range item with both pieces free of dots splits in two. *)
Lemma resolve_range src a b (sa sb : option Z) :
  bound a = Ok sa → bound b = Ok sb →
  resolve_item src (Some (a +:+ ".." +:+ b))
  = Ok (Many (Py.slice (default 1 sa - 1) sb src),
        Z.of_nat (length (Py.slice (default 1 sa - 1) sb src))).
Proof.
  intros Ha Hb. unfold resolve_item.
  rewrite contains_sep.
  rewrite split_sep by (by eapply bound_avoids_dot).
  rewrite split_plain by (by eapply bound_avoids_dot).
  simpl. by rewrite Ha, Hb.
Qed.

(** An item made of one piece that [int] accepts is a scalar. *)
Lemma resolve_scalar src a z :
  Py.int a = Ok z → resolve_item src (Some a) = Ok (Single z, 1).
Proof.
  intros Ha. unfold resolve_item.
  rewrite contains_avoids by (by eapply int_avoids_dot).
  rewrite split_plain by (by eapply int_avoids_comma).
  simpl. by rewrite Ha.
Qed.

Lemma rmap_ok {A B : Type} (f : A → result B) (xs : list A) (ys : list B) :
  Forall2 (fun x y => f x = Ok y) xs ys → rmap f xs = Ok ys.
Proof.
  induction 1 as [|x y xs ys Hx _ IH]; [done|].
  simpl. by rewrite Hx, IH.
Qed.

Lemma rmap_length {A B : Type} (f : A → result B) (xs : list A) (ys : list B) :
  rmap f xs = Ok ys → length ys = length xs.
Proof.
  revert ys. induction xs as [|x xs IH]; intros ys; simpl.
  - by intros [= <-].
  - destruct (f x); [|done]. simpl.
    destruct (rmap f xs) as [ys'|]; [|done].
    simpl. intros [= <-]. simpl. by rewrite (IH ys').
Qed.

Lemma avoids_concat c0 (sep : string) (ts : list string) :
  avoids c0 sep = true → Forall (fun t => avoids c0 t = true) ts →
  avoids c0 (String.concat sep ts) = true.
Proof.
  intros Hsep. induction 1 as [|t ts Ht Hts IH]; [done|].
  destruct ts as [|t' ts]; [done|].
  change (String.concat sep (t :: t' :: ts))
    with (t +:+ sep +:+ String.concat sep (t' :: ts)).
  unfold avoids in *. by rewrite !all_chars_app, Ht, Hsep, IH.
Qed.

(** A comma-separated item: the pieces, parsed in the order given. *)
Lemma resolve_list src (ts : list string) (zs : list Z) :
  ts ≠ [] →
  Forall2 (fun t z => Py.int t = Ok z) ts zs →
  resolve_item src (Some (String.concat "," ts))
  = Ok (match zs with
        | [p] => (Single p, 1)
        | _ => (Many zs, Z.of_nat (length zs))
        end).
Proof.
  intros Hne Hall. unfold resolve_item.
  assert (Hdot : Forall (fun t => avoids "." t = true) ts).
  { eapply Forall2_Forall_l; [exact Hall|].
    apply Forall_true. intros t z. apply int_avoids_dot. }
  assert (Hcomma : Forall (fun t => avoids "," t = true) ts).
  { eapply Forall2_Forall_l; [exact Hall|].
    apply Forall_true. intros t z. apply int_avoids_comma. }
  rewrite contains_avoids by (by apply avoids_concat).
  rewrite split_concat by done.
  rewrite (rmap_ok _ _ _ Hall). simpl.
  by destruct zs as [|? [|? ?]].
Qed.

End Resolve.

(** ** Facts about reading *)

Section Reading.

Lemma count_nonneg (d : dataset) : 0 ≤ Rio.count d.
Proof. unfold Rio.count. lia. Qed.



End Reading.

(** ** Decimal numerals

    [pretty] writes an integer the way [str] does; [int] reads it back. *)

Section Decimal.

Lemma digit_val_char (x : N) :
  (x < 10)%N →
  Py.digit_val (pretty_N_char x) = Some (Z.of_N x)
  ∧ Py.isspace (pretty_N_char x) = false
  ∧ pretty_N_char x ≠ "-"%char ∧ pretty_N_char x ≠ "+"%char.
Proof.
  intros Hx.
  assert (x = 0 ∨ x = 1 ∨ x = 2 ∨ x = 3 ∨ x = 4 ∨ x = 5 ∨ x = 6 ∨ x = 7
          ∨ x = 8 ∨ x = 9)%N as Hc by lia.
  repeat (destruct Hc as [->|Hc]); try subst x; by vm_compute.
Qed.

Lemma digits_pretty_go (x : N) (seen : bool) (s : string) :
  (0 < x)%N →
  Py.digits 0 seen (pretty_N_go x s) = Py.digits (Z.of_N x) true s.
Proof.
  revert seen s. induction (N.lt_wf_0 x) as [x _ IH]. intros seen s Hx.
  rewrite pretty_N_go_step by done.
  assert (Hd : (x `mod` 10 < 10)%N) by (apply N.mod_lt; lia).
  destruct (digit_val_char _ Hd) as (Hv & _).
  assert (Hx10 : Z.of_N x = 10 * Z.of_N (x `div` 10) + Z.of_N (x `mod` 10)).
  { rewrite <- (N2Z.inj_mul 10), <- N2Z.inj_add. f_equal.
    apply N.div_mod. lia. }
  destruct (N.eq_dec (x `div` 10)%N 0%N) as [H0|H0].
  - rewrite H0, pretty_N_go_0. simpl. rewrite Hv. f_equal.
    rewrite Hx10, H0. lia.
  - rewrite IH; [| apply N.div_lt; lia | by apply N.neq_0_lt_0].
    simpl. rewrite Hv. f_equal. lia.
Qed.

Lemma pretty_go_head (x : N) (s : string) :
  (0 < x)%N →
  ∃ d s', (d < 10)%N ∧ pretty_N_go x s = String (pretty_N_char d) s'.
Proof.
  revert s. induction (N.lt_wf_0 x) as [x _ IH]. intros s Hx.
  rewrite pretty_N_go_step by done.
  destruct (N.eq_dec (x `div` 10)%N 0%N) as [H0|H0].
  - rewrite H0, pretty_N_go_0. eexists _, _. split; [|done].
    apply N.mod_lt. lia.
  - apply IH; [apply N.div_lt; lia | by apply N.neq_0_lt_0].
Qed.

Lemma int_digit_head (c : ascii) (s : string) :
  Py.isspace c = false → c ≠ "-"%char → c ≠ "+"%char →
  Py.int (String c s)
  = match Py.digits 0 false (String c s) with
    | Some z => Ok z
    | None => Raise ValueError
    end.
Proof.
  intros Hsp Hm Hp. unfold Py.int. simpl Py.lstrip. rewrite Hsp.
  destruct c as [[] [] [] [] [] [] [] []]; try done.
Qed.

Lemma int_minus (s : string) :
  Py.int (String "-" s)
  = match Py.digits 0 false s with
    | Some z => Ok (- z)
    | None => Raise ValueError
    end.
Proof. unfold Py.int. simpl. by destruct (Py.digits 0 false s). Qed.

Lemma int_pretty_pos (p : positive) : Py.int (pretty (Npos p)) = Ok (Zpos p).
Proof.
  unfold pretty, pretty_N. rewrite decide_False by done.
  destruct (pretty_go_head (Npos p) "") as (d & s' & Hd & Hs); [lia|].
  destruct (digit_val_char d Hd) as (_ & Hsp & Hm & Hp).
  rewrite Hs, int_digit_head by done. rewrite <- Hs.
  rewrite digits_pretty_go by lia. done.
Qed.

(** [int(str(z)) = z] *)
Lemma int_pretty (z : Z) : Py.int (pretty z) = Ok z.
Proof.
  destruct z as [|p|p].
  - reflexivity.
  - apply int_pretty_pos.
  - unfold pretty, pretty_Z.
    change (pretty p) with (pretty (Npos p)).
    unfold pretty, pretty_N. rewrite decide_False by done.
    change ("-" +:+ pretty_N_go (N.pos p) "")
      with (String "-" (pretty_N_go (N.pos p) "")).
    rewrite int_minus, digits_pretty_go by lia. done.
Qed.

End Decimal.

(** ** Ranges within the bands, and expressions written in decimal *)

Section InBounds.

(** A range whose bounds are bands of the input selects the bands between
    them, both included. *)
Lemma range_in_bounds (d : dataset) (a b : string) (M O : Z) :
  Py.int a = Ok M → Py.int b = Ok O →
  1 ≤ M → M ≤ O + 1 → O ≤ Rio.count d →
  resolve_item (Rio.indexes d) (Some (a +:+ ".." +:+ b))
  = Ok (Many (seqZ M (O - M + 1)), O - M + 1).
Proof.
  intros Ha Hb H1 H2 H3.
  rewrite (resolve_range _ a b (Some M) (Some O)) by (by apply bound_int).
  unfold Rio.indexes. rewrite slice_seqZ by apply count_nonneg.
  simpl. rewrite !clamp_in_range by lia.
  replace (1 + (M - 1)) with M by lia.
  replace (O - (M - 1)) with (O - M + 1) by lia.
  rewrite length_seqZ. f_equal. f_equal. lia.
Qed.

Lemma range_decimal (d : dataset) (M O : Z) :
  1 ≤ M ≤ O → O ≤ Rio.count d →
  resolve_item (Rio.indexes d) (Some (pretty M +:+ ".." +:+ pretty O))
  = Ok (Many (seqZ M (O - M + 1)), O - M + 1).
Proof.
  intros H1 H2. apply range_in_bounds; auto using int_pretty with lia.
Qed.

Lemma scalar_decimal (src : list Z) (z : Z) :
  resolve_item src (Some (pretty z)) = Ok (Single z, 1).
Proof. apply resolve_scalar, int_pretty. Qed.

Lemma list_decimal (src : list Z) (zs : list Z) :
  (2 ≤ length zs)%nat →
  resolve_item src (Some (String.concat "," (pretty <$> zs)))
  = Ok (Many zs, Z.of_nat (length zs)).
Proof.
  intros Hlen.
  rewrite (resolve_list src (pretty <$> zs) zs).
  - by destruct zs as [|? [|? ?]]; simpl in *; try lia.
  - destruct zs; [simpl in Hlen; lia | done].
  - apply Forall2_fmap_l, Forall_Forall2_diag, Forall_true.
    intros z. apply int_pretty.
Qed.

End InBounds.

(** ** The selector: properties of [resolve_item] *)

(** C4. An input of N bands with no selection expression resolves to the
    full ordered band list [1..N] and adds exactly N to the output band
    count. This holds for every N, in particular for N >= 1. *)
Theorem absent_selects_all (d : dataset) :
  resolve_item (Rio.indexes d) None
  = Ok (Many (seqZ 1 (Rio.count d)), Rio.count d).
Proof.
  unfold resolve_item, Rio.indexes.
  rewrite length_seqZ, Z2Nat.id by apply count_nonneg.
  done.
Qed.

(** C3. Over an input of N bands, a range expression whose pieces read M
    and O with 1 <= M <= O <= N resolves to exactly M, M+1, ..., O, which
    are O-M+1 bands; an expression with the start left out resolves as the
    one with start 1, and an expression with the stop left out resolves as
    the one whose stop is the last band N. *)
Theorem range_resolves (d : dataset) (a b n : string) (M O : Z) :
  Py.int a = Ok M → Py.int b = Ok O → Py.int n = Ok (Rio.count d) →
  1 ≤ M ≤ O ≤ Rio.count d →
  resolve_item (Rio.indexes d) (Some (a +:+ ".." +:+ b))
    = Ok (Many (seqZ M (O - M + 1)), O - M + 1)
  ∧ Z.of_nat (length (seqZ M (O - M + 1))) = O - M + 1
  ∧ resolve_item (Rio.indexes d) (Some (".." +:+ b))
    = resolve_item (Rio.indexes d) (Some ("1" +:+ ".." +:+ b))
  ∧ resolve_item (Rio.indexes d) (Some (a +:+ ".." +:+ ""))
    = resolve_item (Rio.indexes d) (Some (a +:+ ".." +:+ n)).
Proof.
  intros Ha Hb Hn HMO.
  pose proof (bound_int _ _ Ha) as Ba.
  pose proof (bound_int _ _ Hb) as Bb.
  pose proof (bound_int _ _ Hn) as Bn.
  assert (Hlen : Z.of_nat (length (seqZ M (O - M + 1))) = O - M + 1).
  { rewrite length_seqZ. lia. }
  split; [|split; [done|split]].
  - apply range_in_bounds; auto with lia.
  - rewrite (resolve_range _ "" b None (Some O)) by done.
    by rewrite (resolve_range _ "1" b (Some 1) (Some O)) by done.
  - rewrite (resolve_range _ a "" (Some M) None) by done.
    rewrite (resolve_range _ a n (Some M) (Some (Rio.count d))) by done.
    rewrite slice_none_len. unfold Rio.indexes.
    by rewrite length_seqZ, Z2Nat.id by apply count_nonneg.
Qed.

Lemma range_resolves_witness :
  resolve_item (Rio.indexes rgb) (Some "2..3") = Ok (Many [2; 3], 2)
  ∧ resolve_item (Rio.indexes rgb) (Some "..3")
    = resolve_item (Rio.indexes rgb) (Some "1..3")
  ∧ resolve_item (Rio.indexes rgb) (Some "2..")
    = resolve_item (Rio.indexes rgb) (Some "2..3").
Proof.
  destruct (range_resolves rgb "2" "3" "3" 2 3) as (H1 & _ & H2 & H3);
    [reflexivity | reflexivity | reflexivity | vm_compute; intuition discriminate |].
  split; [exact H1 | split; [exact H2 | exact H3]].
Defined.

(** A slice whose non-negative stop does not exceed its start is empty. *)
Lemma slice_empty {A : Type} (lo hi : Z) (l : list A) :
  0 ≤ hi ≤ lo → Py.slice lo (Some hi) l = [].
Proof.
  intros H. unfold Py.slice, Py.clamp.
  destruct (Z.ltb_spec lo 0); [lia|].
  destruct (Z.ltb_spec hi 0); [lia|].
  replace (Z.to_nat _) with 0%nat by lia. done.
Qed.

(** C1, as the code has it. A range expression whose start is greater than
    its stop raises no error: it resolves to a list and, when the stop is
    not negative (as in "5..2"), to the empty list, adding zero to the
    output band count. *)
Theorem reversed_range_is_empty (src : list Z) (a b : string) (M O : Z) :
  Py.int a = Ok M → Py.int b = Ok O → O < M →
  ∃ l, resolve_item src (Some (a +:+ ".." +:+ b))
       = Ok (Many l, Z.of_nat (length l))
       ∧ (0 ≤ O → l = []).
Proof.
  intros Ha Hb HOM.
  rewrite (resolve_range src a b (Some M) (Some O))
    by (by apply bound_int).
  eexists. split; [reflexivity|].
  intros HO. apply slice_empty. simpl. lia.
Qed.

Lemma reversed_range_is_empty_witness :
  ∃ l, resolve_item [1; 2; 3] (Some "5..2") = Ok (Many l, Z.of_nat (length l))
       ∧ (0 ≤ 2 → l = []).
Proof.
  apply (reversed_range_is_empty [1; 2; 3] "5" "2" 5 2);
    [reflexivity | reflexivity | lia].
Defined.

(** C1, as stated, fails: "5..2" over a three-band input raises nothing and
    resolves to the empty selection, which adds zero bands. *)
Lemma reversed_range_not_rejected :
  resolve_item (Rio.indexes rgb) (Some "5..2") = Ok (Many [], 0)
  ∧ ¬ ∃ e, resolve_item (Rio.indexes rgb) (Some "5..2") = Raise e.
Proof. split; [reflexivity | intros [e He]; discriminate He]. Qed.

(** C7, as the code has it. A range expression whose bounds fall outside
    1..N is not rejected, and no out-of-range index is passed on: the slice
    clamps the bounds, so every resolved index lies in 1..N. *)
Theorem range_is_clamped (d : dataset) (a b : string) (M O : Z) :
  Py.int a = Ok M → Py.int b = Ok O →
  ∃ l, resolve_item (Rio.indexes d) (Some (a +:+ ".." +:+ b))
       = Ok (Many l, Z.of_nat (length l))
       ∧ Forall (fun i => 1 ≤ i ≤ Rio.count d) l.
Proof.
  intros Ha Hb.
  rewrite (resolve_range _ a b (Some M) (Some O)) by (by apply bound_int).
  eexists. split; [reflexivity|].
  unfold Rio.indexes. rewrite slice_seqZ by apply count_nonneg.
  apply Forall_seqZ. intros i Hi. simpl in Hi.
  pose proof (clamp_range (Rio.count d) (M - 1) (count_nonneg d)).
  pose proof (clamp_range (Rio.count d) O (count_nonneg d)).
  lia.
Qed.

Lemma range_is_clamped_witness :
  ∃ l, resolve_item (Rio.indexes rgb) (Some "0..5")
       = Ok (Many l, Z.of_nat (length l))
       ∧ Forall (fun i => 1 ≤ i ≤ Rio.count rgb) l.
Proof.
  apply (range_is_clamped rgb "0" "5" 0 5); reflexivity.
Defined.

(** C7, as stated, fails: "1..5" over a three-band input has its stop
    beyond the last band, yet every resolved index is in range and the
    whole command succeeds; no read ever fails. *)
Lemma out_of_range_stop_not_passed_on :
  resolve_item (Rio.indexes rgb) (Some "1..5") = Ok (Many [1; 2; 3], 3)
  ∧ Rio.count rgb < 5
  ∧ is_ok (Rio.read_bands rgb [1; 2; 3]) = true
  ∧ exit_code (stack test_fs (test_args ["1..5"])) = 0.
Proof. vm_compute. repeat split; congruence. Qed.

(** C5. A comma-separated list of two or more pieces resolves to the list
    of their values in the order of the pieces, duplicates included: the
    list is neither sorted nor deduplicated. *)
Theorem list_keeps_order (src : list Z) (ts : list string) (zs : list Z) :
  Forall2 (fun t z => Py.int t = Ok z) ts zs →
  (2 ≤ length ts)%nat →
  resolve_item src (Some (String.concat "," ts))
  = Ok (Many zs, Z.of_nat (length zs)).
Proof.
  intros Hall Hlen.
  rewrite (resolve_list src ts zs);
    [| intros ->; simpl in Hlen; lia | done].
  pose proof (Forall2_length _ _ _ Hall) as Hl.
  destruct zs as [|z1 [|z2 zs]]; simpl in *; try done; lia.
Qed.

Lemma list_keeps_order_witness :
  resolve_item [1; 2; 3] (Some "2,1,2") = Ok (Many [2; 1; 2], 3).
Proof.
  apply (list_keeps_order [1; 2; 3] ["2"; "1"; "2"] [2; 1; 2]).
  - repeat constructor.
  - simpl. lia.
Defined.

(** ** The copy phase *)

Section Copy.

Implicit Types (st : copy_state) (w : writer) (tr : list event).

Lemma contributed_nonneg sel : 0 ≤ contributed sel.
Proof. destruct sel; simpl; lia. Qed.

Lemma total_nonneg ixs : 0 ≤ total ixs.
Proof.
  induction ixs as [|sel ixs IH]; simpl; [done|].
  pose proof (contributed_nonneg sel). lia.
Qed.

Lemma total_app ixs1 ixs2 : total (ixs1 ++ ixs2) = total ixs1 + total ixs2.
Proof. induction ixs1 as [|sel ixs1 IH]; simpl; lia. Qed.

Lemma written_app tr1 tr2 : written (tr1 ++ tr2) = written tr1 ++ written tr2.
Proof.
  induction tr1 as [|[] tr1 IH]; simpl; try done.
  - by rewrite IH.
  - by rewrite IH, app_assoc.
Qed.

Lemma sources_app tr1 tr2 : sources (tr1 ++ tr2) = sources tr1 ++ sources tr2.
Proof. induction tr1 as [|[] tr1 IH]; simpl; try done; by rewrite IH. Qed.

Lemma written_entry path sel c :
  written (entry_calls path sel c) = seqZ c (contributed sel).
Proof. destruct sel; simpl; [done | by rewrite app_nil_r]. Qed.

Lemma sources_entry path sel c : sources (entry_calls path sel c) = [(path, sel)].
Proof. by destruct sel. Qed.

Lemma write_band_frame w data idx w' :
  Rio.write_band w data idx = Ok w' →
  w_meta w' = w_meta w ∧ w_count w' = w_count w.
Proof.
  unfold Rio.write_band. destruct (_ && _); [|done].
  by intros [= <-].
Qed.

Lemma write_bands_frame w data idxs w' :
  Rio.write_bands w data idxs = Ok w' →
  w_meta w' = w_meta w ∧ w_count w' = w_count w.
Proof.
  revert w idxs. induction data as [|r data IH]; intros w [|i idxs]; simpl;
    try done.
  - by intros [= <-].
  - destruct (Rio.write_band w r i) as [w1|] eqn:H1; [|done]. simpl.
    intros H2. apply IH in H2 as [-> ->]. by apply write_band_frame in H1.
Qed.

(** One successful turn of the loop: the calls made and the new cursor. *)
Lemma copy_entry_ok fs path sel st st' :
  copy_entry fs path sel st = (st', Ok ()) →
  cs_idx st' = cs_idx st + contributed sel
  ∧ cs_trace st' = cs_trace st ++ entry_calls path sel (cs_idx st)
  ∧ w_meta (cs_dst st') = w_meta (cs_dst st)
  ∧ w_count (cs_dst st') = w_count (cs_dst st).
Proof.
  unfold copy_entry.
  destruct (Rio.open_r fs (Some path)) as [src|]; [|done].
  destruct sel as [i|l].
  - destruct (Rio.read_band src i) as [data|]; [|done]. simpl.
    destruct (Rio.write_band _ _ _) as [dst|] eqn:Hw; [|done].
    intros [= <-]. simpl. apply write_band_frame in Hw as [-> ->].
    by rewrite <- app_assoc.
  - destruct (Rio.read_bands src l) as [data|]; [|done]. simpl.
    destruct (Rio.write_bands _ _ _) as [dst|] eqn:Hw; [|done].
    intros [= <-]. simpl. apply write_bands_frame in Hw as [-> ->].
    by rewrite <- app_assoc.
Qed.

(** A failed turn writes nothing and leaves the cursor where it was. *)
Lemma copy_entry_fail fs path sel st st' e :
  copy_entry fs path sel st = (st', Raise e) →
  cs_idx st' = cs_idx st
  ∧ written (cs_trace st') = written (cs_trace st)
  ∧ cs_dst st' = cs_dst st.
Proof.
  unfold copy_entry.
  destruct (Rio.open_r fs (Some path)) as [src|]; [|by intros [= <- _]].
  destruct sel as [i|l].
  - destruct (Rio.read_band src i) as [data|]; [|by intros [= <- _]]. simpl.
    destruct (Rio.write_band _ _ _) as [dst|]; [done|].
    intros [= <- _]. simpl. by rewrite written_app, app_nil_r.
  - destruct (Rio.read_bands src l) as [data|]; [|by intros [= <- _]]. simpl.
    destruct (Rio.write_bands _ _ _) as [dst|]; [done|].
    intros [= <- _]. simpl. by rewrite written_app, app_nil_r.
Qed.

(** The loop invariant: whatever happens, the destination indexes written
    extend the earlier ones by a run that starts at the cursor. *)
Lemma copy_loop_inv fs (plan : list (string * selection)) st st' r :
  copy_loop fs plan st = (st', r) →
  w_meta (cs_dst st') = w_meta (cs_dst st)
  ∧ w_count (cs_dst st') = w_count (cs_dst st)
  ∧ written (cs_trace st')
    = written (cs_trace st) ++ seqZ (cs_idx st) (cs_idx st' - cs_idx st)
  ∧ 0 ≤ cs_idx st' - cs_idx st ≤ total plan.*2
  ∧ (r = Ok () →
     cs_idx st' - cs_idx st = total plan.*2
     ∧ sources (cs_trace st') = sources (cs_trace st) ++ plan).
Proof.
  revert st. induction plan as [|[path sel] plan IH]; intros st.
  - simpl. intros [= <- <-]. rewrite Z.sub_diag, app_nil_r.
    split_and!; try done. intros _. by rewrite app_nil_r.
  - pose proof (contributed_nonneg sel) as Hsel.
    pose proof (total_nonneg plan.*2) as Htot.
    change (total ((path, sel) :: plan).*2)
      with (contributed sel + total plan.*2).
    simpl copy_loop.
    destruct (copy_entry fs path sel st) as [st1 [[]|e]] eqn:H1.
    + intros H2. apply copy_entry_ok in H1 as (Hi & Ht & Hm & Hc).
      apply IH in H2 as (Hm' & Hc' & Hw & Hk & Hr).
      rewrite Hm', Hc', Hw, Ht, written_app, written_entry.
      split; [done|]. split; [done|]. split; [|split].
      * rewrite <- app_assoc. f_equal.
        replace (cs_idx st' - cs_idx st)
          with (contributed sel + (cs_idx st' - (cs_idx st + contributed sel)))
          by lia.
        rewrite seqZ_app by lia. by rewrite Hi.
      * lia.
      * intros Hok. destruct (Hr Hok) as [Hk' ->]. split; [lia|].
        by rewrite Ht, sources_app, sources_entry, <- app_assoc.
    + intros [= <- <-]. apply copy_entry_fail in H1 as (Hi & Hw & Hd).
      rewrite Hi, Hw, Hd, Z.sub_diag, app_nil_r.
      split_and!; try done; lia.
Qed.

End Copy.

(** ** When a turn of the copy loop succeeds *)

Section CopyRuns.

Implicit Types (st : copy_state) (w : writer).








End CopyRuns.





(** ** The whole command *)

Section Planning.

Lemma resolve_item_count (src : list Z) (item : option string)
    (r : selection * Z) :
  resolve_item src item = Ok r → r.2 = contributed r.1.
Proof.
  unfold resolve_item. destruct item as [item|]; [|by intros [= <-]].
  destruct (Py.contains ".." item).
  - destruct (rmap bound _) as [parts|]; [|done]. simpl.
    destruct parts as [|start [|stop [|? ?]]]; try done.
    by intros [= <-].
  - destruct (rmap Py.int _) as [parts|]; [|done]. simpl.
    destruct parts as [|p [|? ?]]; by intros [= <-].
Qed.

(** The first loop appends one entry per pair, adds what each contributes,
    and gets through only if every pair has a path. *)
Lemma resolve_all_spec fs (pairs : list (option string * option string))
    (acc : list selection) (c : Z) (ixs : list selection) (oc : Z) :
  resolve_all fs pairs acc c = Ok (ixs, oc) →
  ∃ new, ixs = acc ++ new
         ∧ length new = length pairs
         ∧ oc = c + total new
         ∧ Forall (fun p => is_Some p.1) pairs.
Proof.
  revert acc c. induction pairs as [|[path item] pairs IH]; intros acc c; simpl.
  - intros [= <- <-]. exists []. rewrite app_nil_r. simpl.
    split_and!; try done. lia.
  - destruct path as [path|]; [|done].
    destruct (Rio.open_r fs (Some path)) as [src|]; [|done]. simpl.
    destruct (resolve_item (Rio.indexes src) item) as [r|] eqn:Hr; [|done].
    simpl. intros H. apply IH in H as (new & -> & Hlen & -> & Hall).
    exists (r.1 :: new). rewrite <- app_assoc. simpl.
    rewrite (resolve_item_count _ _ _ Hr).
    split_and!; try done; [by rewrite Hlen | lia |].
    constructor; [by eexists | done].
Qed.

Lemma zip_longest_paths {A B : Type} (xs : list A) (ys : list B) :
  Forall (fun p => is_Some p.1) (Py.zip_longest xs ys) →
  length (Py.zip_longest xs ys) = length xs.
Proof.
  revert ys. induction xs as [|x xs IH]; intros [|y ys]; simpl; try done.
  - intros H. apply Forall_cons in H as [[? [=]] _].
  - intros H. apply Forall_cons in H as [_ H]. by rewrite (IH []).
  - intros H. apply Forall_cons in H as [_ H]. by rewrite (IH ys).
Qed.

Lemma output_kwargs_count meta driver n ph kwargs :
  output_kwargs meta driver n ph = Ok kwargs →
  kwargs !! "count" = Some (VInt n).
Proof.
  unfold output_kwargs. destruct (meta !! "affine"); [|done].
  intros [= <-]. destruct (truthy ph); by simplify_map_eq.
Qed.

Lemma open_w_spec kwargs w :
  Rio.open_w kwargs = Ok w →
  w_meta w = kwargs ∧ kwargs !! "count" = Some (VInt (w_count w)).
Proof.
  unfold Rio.open_w. destruct (kwargs !! "count") as [[n| | |]|] eqn:Hc;
    try done.
  by intros [= <-].
Qed.

(** What a run that got as far as opening the output went through. *)
Lemma stack_body_opened fs a st r :
  stack_body fs a = (Some st, r) →
  ∃ ixs oc first kwargs w p rest,
    resolve_all fs (Py.zip_longest (input a) (bidx a)) [] 0 = Ok (ixs, oc)
    ∧ input a = p :: rest
    ∧ fs !! p = Some first
    ∧ output_kwargs (ds_meta first) (driver a) oc (photometric a) = Ok kwargs
    ∧ Rio.open_w kwargs = Ok w
    ∧ copy_loop fs (zip (input a) ixs)
        {| cs_dst := w; cs_idx := 1; cs_trace := [] |} = (st, r).
Proof.
  unfold stack_body, plan.
  destruct (resolve_all fs _ [] 0) as [[ixs oc]|] eqn:Hres; [|done]. simpl.
  destruct (input a) as [|p rest] eqn:Hin; [done|].
  unfold Rio.open_r. destruct (fs !! p) as [first|] eqn:Hp; [|done]. simpl.
  destruct (output_kwargs _ _ _ _) as [kwargs|] eqn:Hk; [|done]. simpl.
  destruct (Rio.open_w kwargs) as [w|] eqn:Hw; [|done].
  destruct (copy_loop _ _ _) as [st' r'] eqn:Hcopy.
  intros [= <- <-]. by eexists ixs, oc, first, kwargs, w, p, rest.
Qed.

Lemma stack_final fs a : final (stack fs a) = (stack_body fs a).1.
Proof. unfold stack. by destruct (stack_body fs a) as [st [[]|e]]. Qed.

Lemma stack_exit fs a :
  exit_code (stack fs a) = if is_ok (stack_body fs a).2 then 0 else 1.
Proof. unfold stack. by destruct (stack_body fs a) as [st [[]|e]]. Qed.

End Planning.

(** C2. In every run that opens the output, the band count the output is
    declared with is the sum of what the resolved selections contribute,
    one per input; the destination indexes written are 1, 2, ... without
    gap or overlap, up to the cursor; and when the command succeeds they
    are exactly 1..count, the sources being read in the order of the input
    list, each with its own selection. *)
Theorem layout_is_contiguous (fs : gmap string dataset) (a : args)
    (st : copy_state) :
  final (stack fs a) = Some st →
  ∃ ixs oc,
    resolve_all fs (Py.zip_longest (input a) (bidx a)) [] 0 = Ok (ixs, oc)
    ∧ length ixs = length (input a)
    ∧ oc = total ixs
    ∧ w_count (cs_dst st) = oc
    ∧ w_meta (cs_dst st) !! "count" = Some (VInt oc)
    ∧ written (cs_trace st) = seqZ 1 (cs_idx st - 1)
    ∧ cs_idx st - 1 ≤ oc
    ∧ (exit_code (stack fs a) = 0 →
       written (cs_trace st) = seqZ 1 oc
       ∧ sources (cs_trace st) = zip (input a) ixs).
Proof.
  rewrite stack_final, stack_exit.
  destruct (stack_body fs a) as [st0 r] eqn:Hbody. simpl.
  intros ->.
  apply stack_body_opened in Hbody
    as (ixs & oc & first & kwargs & w & p & rest
        & Hres & Hin & Hp & Hk & Hw & Hcopy).
  exists ixs, oc. split; [done|].
  pose proof Hres as Hres'.
  apply resolve_all_spec in Hres' as (new & Hix & Hlen & Hoc & Hpaths).
  simpl in Hix. subst new.
  rewrite (zip_longest_paths _ _ Hpaths) in Hlen.
  apply copy_loop_inv in Hcopy as (Hm & Hc & Hwr & Hk' & Hr).
  simpl in Hm, Hc, Hwr, Hk', Hr.
  apply open_w_spec in Hw as [Hwm Hwc].
  pose proof (output_kwargs_count _ _ _ _ _ Hk) as Hcount.
  rewrite Hcount in Hwc. injection Hwc as Hwc.
  assert (Hsnd : (zip (input a) ixs).*2 = ixs).
  { apply snd_zip. lia. }
  rewrite Hsnd in Hk', Hr.
  split_and!; try done.
  - congruence.
  - by rewrite Hm, Hwm.
  - lia.
  - destruct r as [[]|e]; simpl; [|done]. intros _.
    destruct Hr as [Hidx Hsrc]; [done|].
    rewrite Hwr, Hsrc. split; [f_equal; lia | done].
Qed.

Lemma layout_is_contiguous_witness :
  ∃ st ixs oc,
    final (stack test_fs two_inputs) = Some st
    ∧ resolve_all test_fs (Py.zip_longest (input two_inputs) (bidx two_inputs))
        [] 0 = Ok (ixs, oc)
    ∧ oc = total ixs
    ∧ w_count (cs_dst st) = oc
    ∧ written (cs_trace st) = seqZ 1 (cs_idx st - 1).
Proof.
  destruct (stack test_fs two_inputs) as [code lg [st|]] eqn:Hrun;
    [|vm_compute in Hrun; discriminate Hrun].
  assert (Hfin : final (stack test_fs two_inputs) = Some st)
    by (by rewrite Hrun).
  destruct (layout_is_contiguous test_fs two_inputs st Hfin)
    as (ixs & oc & H1 & _ & H2 & H3 & _ & H4 & _).
  exists st, ixs, oc. by rewrite Hrun in Hfin.
Defined.

Lemma output_kwargs_spec meta driver n ph kwargs :
  output_kwargs meta driver n ph = Ok kwargs →
  kwargs !! "count" = Some (VInt n)
  ∧ kwargs !! "driver" = Some (VStr driver)
  ∧ kwargs !! "photometric"
    = (if truthy ph then VStr <$> ph else meta !! "photometric")
  ∧ is_Some (meta !! "affine")
  ∧ kwargs !! "transform" = meta !! "affine"
  ∧ kwargs !! "affine" = None
  ∧ ∀ k, k ∉ touched_keys → kwargs !! k = meta !! k.
Proof.
  unfold output_kwargs. destruct (meta !! "affine") as [v|] eqn:Haff; [|done].
  intros [= <-].
  assert (Hph : truthy ph = true → ∃ s, ph = Some s).
  { destruct ph; [eauto | done]. }
  split_and!.
  - destruct (truthy ph); by simplify_map_eq.
  - destruct (truthy ph); by simplify_map_eq.
  - destruct (truthy ph) eqn:Ht.
    + destruct (Hph eq_refl) as [s ->]. by simplify_map_eq.
    + by simplify_map_eq.
  - by eexists.
  - destruct (truthy ph); by simplify_map_eq.
  - destruct (truthy ph); by simplify_map_eq.
  - intros k Hk. unfold touched_keys in Hk.
    rewrite !not_elem_of_cons in Hk.
    destruct Hk as (? & ? & ? & ? & ? & _).
    destruct (truthy ph); by simplify_map_eq.
Qed.

(** C8, as the code has it. The metadata the output is created with is the
    first input's, except that the band count is the accumulated total, the
    driver is the option's, a photometric entry is set only when one is
    supplied, and the first input's affine entry is moved to the transform
    entry, no affine entry being left; every other entry is unchanged. *)
Theorem output_meta_from_first (fs : gmap string dataset) (a : args)
    (st : copy_state) :
  final (stack fs a) = Some st →
  ∃ p rest first ixs oc,
    input a = p :: rest
    ∧ fs !! p = Some first
    ∧ resolve_all fs (Py.zip_longest (input a) (bidx a)) [] 0 = Ok (ixs, oc)
    ∧ w_meta (cs_dst st) !! "count" = Some (VInt oc)
    ∧ w_meta (cs_dst st) !! "driver" = Some (VStr (driver a))
    ∧ w_meta (cs_dst st) !! "photometric"
      = (if truthy (photometric a) then VStr <$> photometric a
         else ds_meta first !! "photometric")
    ∧ is_Some (ds_meta first !! "affine")
    ∧ w_meta (cs_dst st) !! "transform" = ds_meta first !! "affine"
    ∧ w_meta (cs_dst st) !! "affine" = None
    ∧ ∀ k, k ∉ touched_keys → w_meta (cs_dst st) !! k = ds_meta first !! k.
Proof.
  rewrite stack_final.
  destruct (stack_body fs a) as [st0 r] eqn:Hbody. simpl.
  intros ->.
  apply stack_body_opened in Hbody
    as (ixs & oc & first & kwargs & w & p & rest
        & Hres & Hin & Hp & Hk & Hw & Hcopy).
  apply copy_loop_inv in Hcopy as (Hm & _). simpl in Hm.
  apply open_w_spec in Hw as [Hwm _].
  exists p, rest, first, ixs, oc. rewrite Hm, Hwm.
  split; [done|]. split; [done|]. split; [done|].
  by apply output_kwargs_spec.
Qed.

Lemma output_meta_from_first_witness :
  ∃ st, final (stack test_fs two_inputs) = Some st
    ∧ w_meta (cs_dst st) !! "count" = Some (VInt 3)
    ∧ w_meta (cs_dst st) !! "transform" = rgb_meta !! "affine"
    ∧ w_meta (cs_dst st) !! "affine" = None
    ∧ w_meta (cs_dst st) !! "dtype" = rgb_meta !! "dtype".
Proof.
  destruct (stack test_fs two_inputs) as [code lg [st|]] eqn:Hrun;
    [|vm_compute in Hrun; discriminate Hrun].
  assert (Hfin : final (stack test_fs two_inputs) = Some st)
    by (by rewrite Hrun).
  destruct (output_meta_from_first test_fs two_inputs st Hfin)
    as (p & rest & first & ixs & oc & Hin & Hp & Hres & Hc & _ & _ & _
        & Ht & Ha & Hk).
  vm_compute in Hin. injection Hin as <- <-.
  vm_compute in Hp. injection Hp as <-.
  vm_compute in Hres. injection Hres as <- <-.
  exists st. rewrite Hrun in Hfin.
  split; [exact Hfin|]. split; [exact Hc|]. split; [exact Ht|].
  split; [exact Ha|]. apply Hk.
  unfold touched_keys. rewrite !not_elem_of_cons.
  split_and!; try discriminate. apply not_elem_of_nil.
Defined.

(** C8, as stated, fails: stacking the testing dataset, the output's
    transform entry is not the input's transform entry but its affine
    entry, and the input's affine entry is gone. *)
Lemma transform_not_verbatim :
  ∃ st, final (stack test_fs (test_args [])) = Some st
    ∧ exit_code (stack test_fs (test_args [])) = 0
    ∧ w_meta (cs_dst st) !! "transform" ≠ rgb_meta !! "transform"
    ∧ w_meta (cs_dst st) !! "affine" ≠ rgb_meta !! "affine".
Proof.
  eexists. split; [vm_compute; reflexivity|]. split; [by vm_compute|].
  split; vm_compute; discriminate.
Qed.





Example exit_on_bad_token :
  exit_code (stack test_fs (test_args ["1..x"])) = 1.
Proof. reflexivity. Qed.

Example exit_on_missing_input :
  exit_code (stack ∅ (test_args [])) = 1.
Proof. reflexivity. Qed.

Example exit_on_bad_read :
  exit_code (stack test_fs (test_args ["7"])) = 1
  ∧ logged (stack test_fs (test_args ["7"]))
    = [("Failed. Exception caught", IndexError)]
  ∧ option_map cs_trace (final (stack test_fs (test_args ["7"]))) = Some [].
Proof. by vm_compute. Qed.

Example exit_on_extra_bidx :
  exit_code (stack test_fs (test_args ["1"; "2"])) = 1.
Proof. reflexivity. Qed.

Example exit_on_success :
  stack test_fs two_inputs
  = {| exit_code := 0; logged := [];
       final := final (stack test_fs two_inputs) |}
  ∧ option_map cs_trace (final (stack test_fs two_inputs))
    = Some [EvReadBands "RGB.byte.tif" [1; 2]; EvWriteBands [1; 2];
            EvReadBands "RGB.byte.tif" [3]; EvWriteBands [3]].
Proof. split; by vm_compute. Qed.

(** ** Further properties of the selector *)

Section SelectorErrors.

Implicit Types (a b item : string) (src : list Z).

Lemma int_only_value_error a e : Py.int a = Raise e → e = ValueError.
Proof.
  unfold Py.int. destruct (match Py.lstrip a with
                           | EmptyString => _ | String _ _ => _ end);
    [done | by intros [= <-]].
Qed.

Lemma bound_only_value_error a e : bound a = Raise e → e = ValueError.
Proof.
  destruct a as [|c s]; [done|]. unfold bound.
  destruct (Py.int (String c s)) as [z|e'] eqn:Hz; [done|].
  simpl. intros [= <-]. by eapply int_only_value_error.
Qed.

Lemma rmap_raise {A B : Type} (f : A → result B) (xs : list A) (e : exn) :
  rmap f xs = Raise e → ∃ x, x ∈ xs ∧ f x = Raise e.
Proof.
  induction xs as [|x xs IH]; simpl; [done|].
  destruct (f x) as [y|e'] eqn:Hx; simpl.
  - destruct (rmap f xs) as [ys|e'']; [done|]. simpl.
    intros [= <-]. destruct IH as (x' & Hin & Hx'); [done|].
    exists x'. split; [by right | done].
  - intros [= <-]. exists x. split; [by left | done].
Qed.

Lemma rmap_exists_raise {A B : Type} (f : A → result B) (xs : list A) :
  Exists (fun x => ∃ e, f x = Raise e) xs → ∃ e, rmap f xs = Raise e.
Proof.
  induction 1 as [x xs [e He]|x xs _ [e IH]]; simpl.
  - rewrite He. eauto.
  - destruct (f x); simpl; [rewrite IH|]; eauto.
Qed.

Lemma resolve_raises src (item : option string) (e : exn) :
  resolve_item src item = Raise e → e = ValueError.
Proof.
  unfold resolve_item. destruct item as [item|]; [|done].
  destruct (Py.contains ".." item).
  - destruct (rmap bound _) as [parts|e'] eqn:Hparts; simpl.
    + destruct parts as [|start [|stop [|? ?]]]; try done; by intros [= <-].
    + intros [= <-]. apply rmap_raise in Hparts as (x & _ & Hx).
      by eapply bound_only_value_error.
  - destruct (rmap Py.int _) as [parts|e'] eqn:Hparts; simpl.
    + by destruct parts as [|p [|? ?]].
    + intros [= <-]. apply rmap_raise in Hparts as (x & _ & Hx).
      by eapply int_only_value_error.
Qed.

(** The only exception the resolution of an item raises is [ValueError]. *)
Theorem resolve_only_value_error src (item : option string) (e : exn) :
  resolve_item src item = Raise e → e = ValueError.
Proof. apply resolve_raises. Qed.

Lemma resolve_only_value_error_witness :
  resolve_item [1; 2; 3] (Some "1..x") = Raise ValueError.
Proof.
  destruct (resolve_item [1; 2; 3] (Some "1..x")) as [r|e] eqn:H;
    [vm_compute in H; discriminate H|].
  f_equal. exact (resolve_only_value_error _ _ _ H).
Defined.

Lemma split_go_nonempty (sep : string) (k : nat) (cur s : string) :
  Py.split_go sep k cur s ≠ [].
Proof.
  revert k cur. induction s as [|c s IH]; intros k cur; simpl; [done|].
  destruct k; [|apply IH].
  destruct (Py.startswith sep (String c s)); [done | apply IH].
Qed.

(** A range expression with a second separator is rejected: the pieces do
    not unpack into a start and a stop. *)
Theorem second_separator_rejected src a b rest :
  avoids "." a = true → avoids "." b = true →
  resolve_item src (Some (a +:+ ".." +:+ b +:+ ".." +:+ rest))
  = Raise ValueError.
Proof.
  intros Ha Hb.
  destruct (resolve_item src _) as [r|e] eqn:Hr;
    [|by rewrite (resolve_raises _ _ _ Hr)].
  exfalso. revert Hr. unfold resolve_item.
  rewrite contains_sep, !split_sep by done.
  pose proof (split_go_nonempty ".." 0 "" rest) as Hne.
  fold (Py.split ".." rest) in Hne.
  destruct (Py.split ".." rest) as [|c cs]; [done|].
  simpl. destruct (bound a); [|done]. simpl.
  destruct (bound b); [|done]. simpl.
  destruct (bound c); [|done]. simpl.
  by destruct (rmap bound cs).
Qed.

Lemma second_separator_rejected_witness :
  resolve_item [1; 2; 3] (Some "1..2..3") = Raise ValueError.
Proof. apply (second_separator_rejected [1; 2; 3] "1" "2" "3"); reflexivity. Defined.

(** A comma-separated list, free of dots, with an empty piece, such as a
    trailing, a leading or a doubled comma leaves, is rejected as a whole:
    [int] of the empty string is a [ValueError], and so is whatever an
    earlier piece may raise. *)
Theorem list_with_empty_piece_rejected src (ts : list string) :
  Forall (fun t => avoids "," t = true) ts →
  Forall (fun t => avoids "." t = true) ts →
  "" ∈ ts →
  resolve_item src (Some (String.concat "," ts)) = Raise ValueError.
Proof.
  intros Hcomma Hdot Hemp.
  assert (Hne : ts ≠ []) by (intros ->; by apply elem_of_nil in Hemp).
  destruct (resolve_item src _) as [r|e] eqn:Hr;
    [|by rewrite (resolve_raises _ _ _ Hr)].
  exfalso. revert Hr. unfold resolve_item.
  rewrite contains_avoids by (by apply avoids_concat).
  rewrite split_concat by done.
  destruct (rmap_exists_raise Py.int ts) as [e ->]; [|done].
  apply Exists_exists. exists "". split; [done|]. by exists ValueError.
Qed.

Lemma list_with_empty_piece_rejected_witness :
  resolve_item [1; 2; 3] (Some "1,2,") = Raise ValueError.
Proof.
  apply (list_with_empty_piece_rejected [1; 2; 3] ["1"; "2"; ""]).
  - repeat constructor.
  - repeat constructor.
  - do 2 (apply elem_of_cons; right). apply elem_of_cons. by left.
Defined.

End SelectorErrors.

Section SelectorRanges.

Implicit Types (a b item : string) (src : list Z).

Lemma slice_sublist {A : Type} (lo : Z) (hi : option Z) (l : list A) :
  Py.slice lo hi l `sublist_of` l.
Proof.
  unfold Py.slice. cbv zeta.
  etrans; [apply sublist_take | apply sublist_drop].
Qed.

Lemma range_sublist src item (r : selection * Z) :
  Py.contains ".." item = true →
  resolve_item src (Some item) = Ok r →
  ∃ l, r = (Many l, Z.of_nat (length l)) ∧ l `sublist_of` src.
Proof.
  intros Hc. unfold resolve_item. rewrite Hc.
  destruct (rmap bound (Py.split ".." item)) as [parts|]; [|done]. simpl.
  destruct parts as [|start [|stop [|? ?]]]; try done.
  intros [= <-]. eexists. split; [reflexivity|]. apply slice_sublist.
Qed.

(** Whatever its bounds, a range expression that resolves selects bands
    the input has, each at most once and in the input's order; what it adds
    to the output band count is their number. *)
Theorem range_selects_sublist src item (r : selection * Z) :
  Py.contains ".." item = true →
  resolve_item src (Some item) = Ok r →
  ∃ l, r = (Many l, Z.of_nat (length l)) ∧ l `sublist_of` src.
Proof. apply range_sublist. Qed.

Lemma range_selects_sublist_witness :
  ∃ l, (Many [2; 3], 2) = (Many l, Z.of_nat (length l))
       ∧ l `sublist_of` [1; 2; 3].
Proof.
  apply (range_selects_sublist [1; 2; 3] "2..9" (Many [2; 3], 2));
    reflexivity.
Defined.

(** The closed form of a range over the bands [1..N]. *)
Lemma range_closed_form (d : dataset) a b (sa sb : option Z) :
  bound a = Ok sa → bound b = Ok sb →
  let lo := Py.clamp (Rio.count d) (default 1 sa - 1) in
  let hi := slice_hi (Rio.count d) sb in
  resolve_item (Rio.indexes d) (Some (a +:+ ".." +:+ b))
  = Ok (Many (seqZ (1 + lo) (hi - lo)),
        Z.of_nat (length (seqZ (1 + lo) (hi - lo)))).
Proof.
  intros Ha Hb lo hi. rewrite (resolve_range _ a b sa sb) by done.
  unfold Rio.indexes. by rewrite slice_seqZ by apply count_nonneg.
Qed.

Lemma seqZ_empty_eq (m m' n n' : Z) : n ≤ 0 → n' ≤ 0 → seqZ m n = seqZ m' n'.
Proof. intros. by rewrite !seqZ_nil. Qed.

(** A negative stop counts from the end: with a start M >= 1 and a stop
    O < 0 over N bands, the bands selected are M, ..., N+O (none when
    N+O < M). *)
Theorem negative_stop_counts_from_end (d : dataset) a b (M O : Z) :
  Py.int a = Ok M → Py.int b = Ok O →
  1 ≤ M → O < 0 →
  resolve_item (Rio.indexes d) (Some (a +:+ ".." +:+ b))
  = Ok (Many (seqZ M (Rio.count d + O - M + 1)),
        Z.of_nat (length (seqZ M (Rio.count d + O - M + 1)))).
Proof.
  intros Ha Hb HM HO.
  rewrite (range_closed_form d a b (Some M) (Some O)) by (by apply bound_int).
  pose proof (count_nonneg d) as HN. simpl.
  assert (Heq : seqZ (1 + Py.clamp (Rio.count d) (M - 1))
                  (Py.clamp (Rio.count d) O - Py.clamp (Rio.count d) (M - 1))
                = seqZ M (Rio.count d + O - M + 1)); [|by rewrite Heq].
  unfold Py.clamp.
  destruct (Z.ltb_spec (M - 1) 0); [lia|].
  destruct (Z.ltb_spec O 0); [|lia].
  destruct (Z.le_gt_cases M (Rio.count d + O)) as [Hle|Hgt].
  - f_equal; lia.
  - apply seqZ_empty_eq; lia.
Qed.

Lemma negative_stop_counts_from_end_witness :
  resolve_item (Rio.indexes rgb) (Some "1..-1") = Ok (Many [1; 2], 2).
Proof.
  apply (negative_stop_counts_from_end rgb "1" "-1" 1 (-1));
    [reflexivity | reflexivity | lia | lia].
Defined.

(** A start M <= 0 does not mean the first band: with the stop left out
    it selects the last 1-M bands of the input, so that "0.." is the last
    band alone. *)
Theorem nonpositive_start_counts_from_end (d : dataset) a (M : Z) :
  Py.int a = Ok M →
  M ≤ 0 → 1 - M ≤ Rio.count d →
  resolve_item (Rio.indexes d) (Some (a +:+ ".." +:+ ""))
  = Ok (Many (seqZ (Rio.count d + M) (1 - M)), 1 - M).
Proof.
  intros Ha HM HN.
  rewrite (range_closed_form d a "" (Some M) None);
    [| by apply bound_int | done].
  simpl. unfold Py.clamp.
  destruct (Z.ltb_spec (M - 1) 0); [|lia].
  replace (1 + Z.max (M - 1 + Rio.count d) 0) with (Rio.count d + M) by lia.
  replace (Rio.count d - Z.max (M - 1 + Rio.count d) 0) with (1 - M) by lia.
  rewrite length_seqZ. do 2 f_equal. lia.
Qed.

Lemma nonpositive_start_counts_from_end_witness :
  resolve_item (Rio.indexes rgb) (Some "0..") = Ok (Many [3], 1).
Proof.
  apply (nonpositive_start_counts_from_end rgb "0" 0);
    [reflexivity | lia | vm_compute; discriminate].
Defined.

Lemma slice_all {A : Type} (l : list A) : Py.slice 0 None l = l.
Proof.
  unfold Py.slice. cbv zeta.
  rewrite clamp_in_range by lia.
  change (Z.to_nat 0) with 0%nat. rewrite drop_0.
  apply take_ge. lia.
Qed.

(** The separator alone selects every band, as no expression does. *)
Theorem bare_separator_selects_all (src : list Z) :
  resolve_item src (Some "..") = resolve_item src None.
Proof.
  change (Some "..") with (Some ("" +:+ ".." +:+ "")).
  rewrite (resolve_range src "" "" None None) by done.
  change (default 1 None - 1) with 0. by rewrite slice_all.
Qed.

End SelectorRanges.

(** ** Further properties of the whole command *)

Section EarlyFailure.

Lemma plan_raise fs a e : plan fs a = Raise e → stack fs a = failed e None.
Proof. intros H. unfold stack, stack_body. by rewrite H. Qed.

Lemma resolve_all_raise fs a e :
  resolve_all fs (Py.zip_longest (input a) (bidx a)) [] 0 = Raise e →
  stack fs a = failed e None.
Proof. intros H. apply plan_raise. unfold plan. by rewrite H. Qed.

Lemma resolve_all_opens fs (pairs : list (option string * option string))
    (acc : list selection) (c : Z) (r : list selection * Z) :
  resolve_all fs pairs acc c = Ok r →
  Forall (fun pr => ∃ p d, pr.1 = Some p ∧ fs !! p = Some d) pairs.
Proof.
  revert acc c. induction pairs as [|[path item] pairs IH]; intros acc c;
    simpl; [by constructor|].
  destruct path as [path|]; [|done]. simpl.
  destruct (fs !! path) as [d|] eqn:Hd; [|done]. simpl.
  destruct (resolve_item (Rio.indexes d) item) as [r'|]; [|done]. simpl.
  intros H. constructor; [by eexists _, _ | by eapply IH].
Qed.

Lemma zip_longest_short {A B : Type} (xs : list A) (ys : list B) :
  (length xs < length ys)%nat →
  ¬ Forall (fun p => is_Some p.1) (Py.zip_longest xs ys).
Proof.
  revert ys. induction xs as [|x xs IH]; intros [|y ys]; simpl; try lia.
  - intros _ H. apply Forall_cons in H as [[? [=]] _].
  - intros Hlen H. apply Forall_cons in H as [_ H]. apply (IH ys); [lia | done].
Qed.

Lemma zip_longest_fst {A B : Type} (xs : list A) (ys : list B) (x : A) :
  x ∈ xs → ∃ y, (Some x, y) ∈ Py.zip_longest xs ys.
Proof.
  revert ys. induction xs as [|x' xs IH]; intros ys Hx.
  - by apply elem_of_nil in Hx.
  - apply elem_of_cons in Hx as [->|Hx].
    + destruct ys as [|y ys]; eexists; simpl; by left.
    + destruct ys as [|y ys]; simpl.
      * destruct (IH [] Hx) as [y' Hy']. exists y'. by right.
      * destruct (IH ys Hx) as [y' Hy']. exists y'. by right.
Qed.

(** More [--bidx] options than inputs: the command fails before the output
    is opened. *)
Theorem extra_bidx_fails (fs : gmap string dataset) (a : args) :
  (length (input a) < length (bidx a))%nat →
  ∃ e, stack fs a = failed e None.
Proof.
  intros Hlen.
  destruct (resolve_all fs (Py.zip_longest (input a) (bidx a)) [] 0)
    as [[ixs oc]|e] eqn:Hres.
  - exfalso. apply resolve_all_spec in Hres as (_ & _ & _ & _ & Hall).
    by apply (zip_longest_short _ _ Hlen).
  - exists e. by apply resolve_all_raise.
Qed.

Lemma extra_bidx_fails_witness :
  ∃ e, stack test_fs (test_args ["1"; "2"]) = failed e None.
Proof. apply extra_bidx_fails. simpl. lia. Defined.

(** An input that cannot be opened, wherever it stands in the list, makes
    the command fail before the output is opened: nothing is written. *)
Theorem missing_input_fails (fs : gmap string dataset) (a : args)
    (p : string) :
  p ∈ input a → fs !! p = None →
  ∃ e, stack fs a = failed e None.
Proof.
  intros Hin Hp.
  destruct (resolve_all fs (Py.zip_longest (input a) (bidx a)) [] 0)
    as [r|e] eqn:Hres.
  - exfalso. apply resolve_all_opens in Hres.
    destruct (zip_longest_fst (input a) (bidx a) p Hin) as [y Hy].
    rewrite Forall_forall in Hres.
    destruct (Hres _ Hy) as (p' & d & [= <-] & Hd). congruence.
  - exists e. by apply resolve_all_raise.
Qed.

Lemma missing_input_fails_witness :
  ∃ e, stack test_fs
         {| input := ["RGB.byte.tif"; "absent.tif"]; bidx := [];
            photometric := None; output := "stacked.tif"; driver := "GTiff" |}
       = failed e None.
Proof.
  apply (missing_input_fails _ _ "absent.tif"); [|reflexivity].
  simpl. apply elem_of_cons. right. apply elem_of_cons. by left.
Defined.

(** A first input whose metadata has no affine entry: the command fails
    with a [KeyError] once every selection is resolved, before the output
    is opened. *)
Theorem no_affine_fails (fs : gmap string dataset) (a : args)
    (r : list selection * Z) (p : string) (rest : list string)
    (first : dataset) :
  resolve_all fs (Py.zip_longest (input a) (bidx a)) [] 0 = Ok r →
  input a = p :: rest →
  fs !! p = Some first →
  ds_meta first !! "affine" = None →
  stack fs a = failed KeyError None.
Proof.
  intros Hres Hin Hp Haff. apply plan_raise.
  unfold plan. rewrite Hres, Hin. simpl. unfold Rio.open_r. rewrite Hp. simpl.
  unfold output_kwargs. by rewrite Haff.
Qed.

Lemma no_affine_fails_witness :
  stack (<["plain.tif" := {| ds_meta := ∅; ds_bands := [band_of 1] |}]> ∅)
    {| input := ["plain.tif"]; bidx := []; photometric := None;
       output := "stacked.tif"; driver := "GTiff" |}
  = failed KeyError None.
Proof.
  eapply no_affine_fails; [| reflexivity | reflexivity | reflexivity].
  vm_compute. reflexivity.
Defined.

(** Without any input the command fails before the output is opened: with
    an [IndexError] on the first input when there is no [--bidx] either,
    with the [TypeError] of a missing path otherwise. *)
Theorem empty_input_fails (fs : gmap string dataset) (a : args) :
  input a = [] →
  stack fs a
  = failed (match bidx a with [] => IndexError | _ => TypeError end) None.
Proof.
  intros Hin. apply plan_raise. unfold plan. rewrite Hin.
  by destruct (bidx a).
Qed.

Lemma empty_input_fails_witness :
  stack test_fs {| input := []; bidx := ["1"]; photometric := None;
                   output := "stacked.tif"; driver := "GTiff" |}
  = failed TypeError None.
Proof.
  apply (empty_input_fails test_fs
           {| input := []; bidx := ["1"]; photometric := None;
              output := "stacked.tif"; driver := "GTiff" |}).
  reflexivity.
Defined.

End EarlyFailure.

Section Success.

Implicit Types (st : copy_state) (w : writer).

Lemma read_band_inv (d : dataset) (i : Z) (r : raster) :
  Rio.read_band d i = Ok r →
  1 ≤ i ≤ Rio.count d ∧ ds_bands d !! Z.to_nat (i - 1) = Some r.
Proof.
  unfold Rio.read_band.
  destruct (Z.leb_spec 1 i); [|done].
  destruct (Z.leb_spec i (Rio.count d)); [|done]. simpl.
  destruct (ds_bands d !! Z.to_nat (i - 1)) as [r'|]; [|done].
  intros [= <-]. split; [lia | done].
Qed.

Lemma read_bands_inv (d : dataset) (l : list Z) (rs : list raster) :
  Rio.read_bands d l = Ok rs → Forall (fun i => 1 ≤ i ≤ Rio.count d) l.
Proof.
  unfold Rio.read_bands. revert rs.
  induction l as [|i l IH]; intros rs; simpl; [by constructor|].
  destruct (Rio.read_band d i) as [r|] eqn:Hr; [|done]. simpl.
  destruct (rmap (Rio.read_band d) l) as [rs'|] eqn:Hrs; [|done].
  intros _. constructor; [by apply read_band_inv in Hr as [? _] | by eapply IH].
Qed.

Lemma copy_entry_readable fs path sel st st' :
  copy_entry fs path sel st = (st', Ok ()) → readable fs (path, sel).
Proof.
  unfold copy_entry, Rio.open_r, readable. simpl.
  destruct (fs !! path) as [d|]; [|done].
  destruct sel as [i|l].
  - destruct (Rio.read_band d i) as [r|] eqn:Hr; [|done]. intros _.
    exists d. split; [done|]. by apply read_band_inv in Hr as [? _].
  - destruct (Rio.read_bands d l) as [rs|] eqn:Hr; [|done]. intros _.
    exists d. split; [done|]. by eapply read_bands_inv.
Qed.

Lemma copy_loop_readable fs (plan : list (string * selection)) st st' :
  copy_loop fs plan st = (st', Ok ()) → Forall (readable fs) plan.
Proof.
  revert st. induction plan as [|[path sel] plan IH]; intros st;
    [by constructor|].
  simpl. destruct (copy_entry fs path sel st) as [st1 [[]|e]] eqn:H1; [|done].
  intros H2. constructor; [by eapply copy_entry_readable | by eapply IH].
Qed.

Lemma success_needs (fs : gmap string dataset) (a : args) :
  exit_code (stack fs a) = 0 →
  ∃ ixs oc p rest first,
    resolve_all fs (Py.zip_longest (input a) (bidx a)) [] 0 = Ok (ixs, oc)
    ∧ input a = p :: rest
    ∧ fs !! p = Some first
    ∧ is_Some (ds_meta first !! "affine")
    ∧ Forall (readable fs) (zip (input a) ixs).
Proof.
  rewrite stack_exit.
  destruct (stack_body fs a) as [[st|] [[]|e]] eqn:Hbody; simpl; try done.
  - intros _. apply stack_body_opened in Hbody
      as (ixs & oc & first & kwargs & w & p & rest
          & Hres & Hin & Hp & Hk & Hw & Hcopy).
    exists ixs, oc, p, rest, first. split_and!; try done.
    + by apply output_kwargs_spec in Hk as (_ & _ & _ & ? & _).
    + by eapply copy_loop_readable.
  - intros _. exfalso. revert Hbody. unfold stack_body.
    destruct (plan fs a) as [[[? ?] kw]|]; [|done].
    destruct (Rio.open_w kw); [|done].
    by destruct (copy_loop _ _ _).
Qed.

(** The command exits with 0 only if every input opened and every
    expression resolved, the first input has an affine entry, and every
    index selected is a band of its input. *)
Theorem stack_succeeds_only_if (fs : gmap string dataset) (a : args) :
  exit_code (stack fs a) = 0 →
  ∃ ixs oc p rest first,
    resolve_all fs (Py.zip_longest (input a) (bidx a)) [] 0 = Ok (ixs, oc)
    ∧ input a = p :: rest
    ∧ fs !! p = Some first
    ∧ is_Some (ds_meta first !! "affine")
    ∧ Forall (readable fs) (zip (input a) ixs).
Proof. apply success_needs. Qed.

Lemma stack_succeeds_only_if_witness :
  ∃ ixs oc,
    resolve_all test_fs (Py.zip_longest (input two_inputs) (bidx two_inputs))
      [] 0 = Ok (ixs, oc)
    ∧ Forall (readable test_fs) (zip (input two_inputs) ixs).
Proof.
  destruct (stack_succeeds_only_if test_fs two_inputs)
    as (ixs & oc & p & rest & first & Hres & _ & _ & _ & Hall);
    [reflexivity|].
  by exists ixs, oc.
Defined.

End Success.

Section Content.

Implicit Types (st : copy_state) (w : writer) (bands rs : list raster).

Lemma holds_empty (meta : gmap string pyval) (n : Z) :
  holds {| w_meta := meta; w_count := n; w_bands := ∅ |} [].
Proof. intros k. simpl. rewrite lookup_empty. by case_bool_decide. Qed.

Lemma write_band_holds w bands (r : raster) w' :
  holds w bands →
  Rio.write_band w r (Z.of_nat (length bands) + 1) = Ok w' →
  holds w' (bands ++ [r]).
Proof.
  intros Hw. unfold Rio.write_band. destruct (_ && _); [|done].
  intros [= <-] k. simpl.
  destruct (decide (k = Z.of_nat (length bands) + 1)) as [->|Hk].
  - rewrite lookup_insert_eq. rewrite bool_decide_eq_true_2 by lia.
    replace (Z.to_nat (Z.of_nat (length bands) + 1 - 1)) with (length bands)
      by lia.
    by rewrite lookup_app_r, Nat.sub_diag by lia.
  - rewrite lookup_insert_ne by done. rewrite Hw.
    case_bool_decide; [|done].
    destruct (decide (Z.to_nat (k - 1) < length bands)%nat).
    + by rewrite lookup_app_l by done.
    + rewrite !lookup_ge_None_2; [done | | lia].
      rewrite length_app. simpl. lia.
Qed.

Lemma write_bands_holds w bands rs w' :
  holds w bands →
  Rio.write_bands w rs (seqZ (Z.of_nat (length bands) + 1)
                          (Z.of_nat (length rs))) = Ok w' →
  holds w' (bands ++ rs).
Proof.
  revert w bands. induction rs as [|r rs IH]; intros w bands Hw.
  - rewrite seqZ_nil by (simpl; lia). simpl. intros [= <-].
    by rewrite app_nil_r.
  - rewrite seqZ_cons by (simpl; lia). simpl Rio.write_bands.
    destruct (Rio.write_band w r _) as [w1|] eqn:H1; [|done]. simpl.
    intros H2. replace (bands ++ r :: rs) with ((bands ++ [r]) ++ rs)
      by (by rewrite <- app_assoc).
    apply (IH w1); [by eapply write_band_holds|].
    rewrite length_app. simpl length.
    replace (Z.of_nat (length bands + 1) + 1)
      with (Z.succ (Z.of_nat (length bands) + 1)) by lia.
    replace (Z.of_nat (length rs))
      with (Z.pred (Z.of_nat (S (length rs)))) by lia.
    exact H2.
Qed.

Lemma copy_entry_holds fs path sel st st' bands :
  holds (cs_dst st) bands →
  cs_idx st = Z.of_nat (length bands) + 1 →
  copy_entry fs path sel st = (st', Ok ()) →
  ∃ d rs, fs !! path = Some d
          ∧ read_sel d sel = Ok rs
          ∧ holds (cs_dst st') (bands ++ rs)
          ∧ cs_idx st' = Z.of_nat (length (bands ++ rs)) + 1.
Proof.
  intros Hw Hidx. unfold copy_entry, Rio.open_r.
  destruct (fs !! path) as [d|]; [|done].
  destruct sel as [i|l].
  - destruct (Rio.read_band d i) as [r|] eqn:Hr; [|done]. simpl.
    destruct (Rio.write_band _ _ _) as [w'|] eqn:Hwr; [|done].
    intros [= <-]. exists d, [r]. simpl. rewrite Hr. split_and!; try done.
    + rewrite Hidx in Hwr. by eapply write_band_holds.
    + rewrite length_app. simpl. lia.
  - destruct (Rio.read_bands d l) as [rs|] eqn:Hr; [|done]. simpl.
    destruct (Rio.write_bands _ _ _) as [w'|] eqn:Hwr; [|done].
    intros [= <-]. exists d, rs. simpl.
    pose proof (rmap_length _ _ _ Hr) as Hlen.
    split_and!; try done.
    + rewrite Hidx, <- Hlen in Hwr. by eapply write_bands_holds.
    + rewrite length_app. lia.
Qed.

Lemma copy_loop_holds fs (plan : list (string * selection)) st st' bands :
  holds (cs_dst st) bands →
  cs_idx st = Z.of_nat (length bands) + 1 →
  copy_loop fs plan st = (st', Ok ()) →
  ∃ data,
    Forall2 (fun e rs => ∃ d, fs !! e.1 = Some d ∧ read_sel d e.2 = Ok rs)
      plan data
    ∧ holds (cs_dst st') (bands ++ concat data)
    ∧ cs_idx st' = Z.of_nat (length (bands ++ concat data)) + 1.
Proof.
  revert st bands. induction plan as [|[path sel] plan IH]; intros st bands Hw Hi.
  - simpl. intros [= <-]. exists []. simpl. rewrite app_nil_r.
    split_and!; by try constructor.
  - simpl copy_loop.
    destruct (copy_entry fs path sel st) as [st1 [[]|e]] eqn:H1; [|done].
    intros H2.
    destruct (copy_entry_holds _ _ _ _ _ _ Hw Hi H1)
      as (d & rs & Hd & Hrs & Hw1 & Hi1).
    destruct (IH _ _ Hw1 Hi1 H2) as (data & Hall & Hw2 & Hi2).
    exists (rs :: data). simpl. rewrite app_assoc.
    split_and!; try done. constructor; [by exists d | done].
Qed.

(** After a successful run the output holds, at the indexes 1, 2, ...,
    exactly the bands read from each input for its selection, in the order
    of the input list and within an input in the order selected; their
    number is the declared band count. *)
Theorem output_holds_selected_bands (fs : gmap string dataset) (a : args)
    (st : copy_state) :
  exit_code (stack fs a) = 0 →
  final (stack fs a) = Some st →
  ∃ ixs oc data,
    resolve_all fs (Py.zip_longest (input a) (bidx a)) [] 0 = Ok (ixs, oc)
    ∧ Forall2 (fun e rs => ∃ d, fs !! e.1 = Some d ∧ read_sel d e.2 = Ok rs)
        (zip (input a) ixs) data
    ∧ holds (cs_dst st) (concat data)
    ∧ Z.of_nat (length (concat data)) = oc
    ∧ w_count (cs_dst st) = oc.
Proof.
  rewrite stack_final, stack_exit.
  destruct (stack_body fs a) as [st0 [[]|e]] eqn:Hbody; simpl; [|done].
  intros _ ->.
  apply stack_body_opened in Hbody
    as (ixs & oc & first & kwargs & w & p & rest
        & Hres & Hin & Hp & Hk & Hw & Hcopy).
  pose proof Hres as Hres'.
  apply resolve_all_spec in Hres' as (new & Hix & Hlen & Hoc & Hpaths).
  simpl in Hix. subst new.
  rewrite (zip_longest_paths _ _ Hpaths) in Hlen.
  pose proof (copy_loop_inv _ _ _ _ _ Hcopy) as (_ & Hc & _ & _ & Hr).
  destruct Hr as [Htot _]; [done|]. simpl in Htot, Hc.
  rewrite snd_zip in Htot by lia.
  assert (Hwc : w_count w = oc).
  { apply open_w_spec in Hw as [_ Hwc].
    rewrite (output_kwargs_count _ _ _ _ _ Hk) in Hwc. by injection Hwc. }
  assert (Hw0 : holds w []).
  { intros k. revert Hw. unfold Rio.open_w.
    destruct (kwargs !! "count") as [[n| | |]|]; try done.
    intros [= <-]. apply (holds_empty kwargs n). }
  destruct (copy_loop_holds fs (zip (input a) ixs)
              {| cs_dst := w; cs_idx := 1; cs_trace := [] |} st []
              Hw0 eq_refl Hcopy)
    as (data & Hall & Hh & Hi).
  simpl in Hh, Hi.
  exists ixs, oc, data. split_and!; try done; [lia | congruence].
Qed.

Lemma output_holds_selected_bands_witness :
  ∃ st data,
    final (stack test_fs two_inputs) = Some st
    ∧ holds (cs_dst st) (concat data)
    ∧ Z.of_nat (length (concat data)) = 3.
Proof.
  destruct (stack test_fs two_inputs) as [code lg [st|]] eqn:Hrun;
    [|vm_compute in Hrun; discriminate Hrun].
  assert (Hexit : exit_code (stack test_fs two_inputs) = 0) by reflexivity.
  assert (Hfin : final (stack test_fs two_inputs) = Some st)
    by (by rewrite Hrun).
  destruct (output_holds_selected_bands test_fs two_inputs st Hexit Hfin)
    as (ixs & oc & data & Hres & _ & Hh & Hlen & _).
  vm_compute in Hres. injection Hres as <- <-.
  exists st, data. rewrite Hrun in Hfin. by split_and!.
Defined.

End Content.

Section RangesAndDefaults.

Lemma indexes_in_range (d : dataset) :
  Forall (fun i => 1 ≤ i ≤ Rio.count d) (Rio.indexes d).
Proof. unfold Rio.indexes. apply Forall_seqZ. lia. Qed.

(** What an absent or a range expression resolves to stays within the
    bands of the input. *)
Lemma safe_item_in_range (d : dataset) (item : option string)
    (r : selection * Z) :
  match item with
  | None => True
  | Some t => Py.contains ".." t = true
  end →
  resolve_item (Rio.indexes d) item = Ok r → in_range d r.1.
Proof.
  destruct item as [t|]; intros Hsafe Hr.
  - destruct (range_sublist _ _ _ Hsafe Hr) as (l & -> & Hsub). simpl.
    rewrite Forall_forall. intros i Hi.
    pose proof (indexes_in_range d) as Hall. rewrite Forall_forall in Hall.
    apply Hall. by eapply elem_of_sublist.
  - simpl in Hr. injection Hr as <-. apply indexes_in_range.
Qed.

Lemma resolve_all_entries fs (pairs : list (option string * option string))
    (acc : list selection) (c : Z) (ixs : list selection) (oc : Z) :
  resolve_all fs pairs acc c = Ok (ixs, oc) →
  ∃ new, ixs = acc ++ new
    ∧ Forall2 (fun pr sel => ∃ p d n, pr.1 = Some p ∧ fs !! p = Some d
                 ∧ resolve_item (Rio.indexes d) pr.2 = Ok (sel, n))
        pairs new.
Proof.
  revert acc c. induction pairs as [|[path item] pairs IH]; intros acc c; simpl.
  - intros [= <- <-]. exists []. by rewrite app_nil_r.
  - destruct path as [path|]; [|done]. simpl.
    destruct (fs !! path) as [d|] eqn:Hd; [|done]. simpl.
    destruct (resolve_item (Rio.indexes d) item) as [[sel n]|] eqn:Hr; [|done].
    simpl. intros H. apply IH in H as (new & -> & Hall).
    exists (sel :: new). rewrite <- app_assoc. split; [done|].
    constructor; [by exists path, d, n | done].
Qed.

Lemma ranges_readable fs (xs ys : list string) (new : list selection) :
  Forall (fun t => Py.contains ".." t = true) ys →
  Forall2 (fun pr sel => ∃ p d n, pr.1 = Some p ∧ fs !! p = Some d
             ∧ resolve_item (Rio.indexes d) pr.2 = Ok (sel, n))
    (Py.zip_longest xs ys) new →
  Forall (readable fs) (zip xs new).
Proof.
  revert ys new. induction xs as [|x xs IH]; intros ys new Hys Hall;
    [by constructor|].
  destruct ys as [|y ys]; simpl in Hall;
    apply Forall2_cons_inv_l in Hall
      as (sel & new' & (p & d & n & [= <-] & Hd & Hr) & Hall & ->); simpl.
  - constructor; [|by apply (IH [])].
    exists d. split; [done|]. by apply (safe_item_in_range d None (sel, n)).
  - apply Forall_cons in Hys as [Hy Hys].
    constructor; [|by apply (IH ys)].
    exists d. split; [done|]. by apply (safe_item_in_range d (Some y) (sel, n)).
Qed.

(** When every [--bidx] option is a range expression (or there is none)
    and the selections resolve, every index selected for every input is a
    band of that input: no range makes the copy phase ask for an index out
    of range. *)
Theorem ranges_stay_in_bands (fs : gmap string dataset) (a : args)
    (ixs : list selection) (oc : Z) :
  Forall (fun t => Py.contains ".." t = true) (bidx a) →
  resolve_all fs (Py.zip_longest (input a) (bidx a)) [] 0 = Ok (ixs, oc) →
  Forall (readable fs) (zip (input a) ixs).
Proof.
  intros Hsafe Hres.
  apply resolve_all_entries in Hres as (new & -> & Hall).
  by eapply ranges_readable.
Qed.

Lemma ranges_stay_in_bands_witness :
  Forall (readable test_fs)
    (zip (input (test_args ["-7..99"])) [Many [1; 2; 3]]).
Proof.
  apply (ranges_stay_in_bands test_fs (test_args ["-7..99"]) _ 3).
  - repeat constructor.
  - by vm_compute.
Defined.



(** Without any [--bidx] option every input contributes all its bands, in
    order: the output band count is the sum of the inputs' band counts. *)
Theorem default_takes_every_band (fs : gmap string dataset)
    (inputs : list string) (ds : list dataset) :
  Forall2 (fun p d => fs !! p = Some d) inputs ds →
  resolve_all fs (Py.zip_longest inputs []) [] 0
  = Ok ((fun d => Many (Rio.indexes d)) <$> ds,
        foldr (fun d n => Rio.count d + n) 0 ds).
Proof.
  intros Hall.
  cut (∀ acc c,
         resolve_all fs (Py.zip_longest inputs ([] : list string)) acc c
         = Ok (acc ++ ((fun d => Many (Rio.indexes d)) <$> ds),
               c + foldr (fun d n => Rio.count d + n) 0 ds)).
  { intros H. by rewrite (H [] 0). }
  induction Hall as [|p d inputs ds Hp _ IH]; intros acc c; simpl.
  - rewrite app_nil_r. do 2 f_equal. lia.
  - rewrite Hp. simpl. rewrite IH, <- app_assoc. simpl.
    assert (Hlen : Z.of_nat (length (Rio.indexes d)) = Rio.count d).
    { unfold Rio.indexes. rewrite length_seqZ. pose proof (count_nonneg d). lia. }
    rewrite Hlen. f_equal. f_equal. lia.
Qed.

Lemma default_takes_every_band_witness :
  resolve_all test_fs (Py.zip_longest ["RGB.byte.tif"; "RGB.byte.tif"] []) [] 0
  = Ok ([Many [1; 2; 3]; Many [1; 2; 3]], 6).
Proof.
  apply (default_takes_every_band test_fs
           ["RGB.byte.tif"; "RGB.byte.tif"] [rgb; rgb]).
  repeat constructor.
Defined.

End RangesAndDefaults.

Section Options.

Lemma choices_truthy (p : string) :
  p ∈ PHOTOMETRIC_CHOICES → truthy (Some p) = true.
Proof.
  unfold PHOTOMETRIC_CHOICES. rewrite list_elem_of_fmap.
  intros (q & -> & Hq).
  repeat (apply elem_of_cons in Hq as [->|Hq]; [reflexivity|]).
  by apply elem_of_nil in Hq.
Qed.

(** Every value accepted for [--photometric] is lower case and not empty,
    so a photometric option that is given is never dropped: it is the
    photometric entry of the output's metadata, whatever the first input
    had there. *)
Theorem photometric_choice_kept (meta : gmap string pyval) (drv : string)
    (n : Z) (p : string) (kwargs : gmap string pyval) :
  p ∈ PHOTOMETRIC_CHOICES →
  output_kwargs meta drv n (Some p) = Ok kwargs →
  Py.lower p = p ∧ kwargs !! "photometric" = Some (VStr p).
Proof.
  intros Hp Hk. split.
  - revert Hp. unfold PHOTOMETRIC_CHOICES. rewrite list_elem_of_fmap.
    intros (q & -> & Hq).
    repeat (apply elem_of_cons in Hq as [->|Hq]; [reflexivity|]).
    by apply elem_of_nil in Hq.
  - apply output_kwargs_spec in Hk as (_ & _ & Hph & _).
    by rewrite (choices_truthy p Hp) in Hph.
Qed.

Lemma photometric_choice_kept_witness :
  ∃ kwargs,
    output_kwargs (<["affine" := VNone]>
                     (<["photometric" := VStr "cmyk"]> (∅ : gmap string pyval)))
      "GTiff" 3 (Some "rgb") = Ok kwargs
    ∧ Py.lower "rgb" = "rgb"
    ∧ kwargs !! "photometric" = Some (VStr "rgb").
Proof.
  eexists. split; [reflexivity|].
  apply (photometric_choice_kept
           (<["affine" := VNone]>
              (<["photometric" := VStr "cmyk"]> (∅ : gmap string pyval)))
           "GTiff" 3 "rgb").
  - unfold PHOTOMETRIC_CHOICES. simpl.
    do 2 (apply elem_of_cons; right). apply elem_of_cons. by left.
  - reflexivity.
Defined.

(** GDAL debugging is switched on exactly when the context object holds a
    verbosity greater than 2; without a context object, without the entry,
    or with a verbosity of 0, the verbosity is taken to be 2 and debugging
    stays off. *)
Theorem cpl_debug_iff (obj : option (gmap string Z)) :
  cpl_debug obj = true ↔
  ∃ m v, obj = Some m ∧ m !! "verbosity" = Some v ∧ 2 < v.
Proof.
  unfold cpl_debug, verbosity. split.
  - destruct obj as [m|]; [|done].
    destruct (decide (m = ∅)); [done|].
    destruct (m !! "verbosity") as [v|] eqn:Hv; [|done].
    destruct (Z.eqb_spec v 0); [done|].
    intros H%Z.ltb_lt. by exists m, v.
  - intros (m & v & -> & Hv & Hgt).
    rewrite decide_False by (intros ->; by rewrite lookup_empty in Hv).
    rewrite Hv. destruct (Z.eqb_spec v 0); [lia|]. by apply Z.ltb_lt.
Qed.

End Options.
